(** * Attachment routes and the client upload helper

    A shallow embedding of [server/routes/api/attachments/attachments.ts]
    (the handlers [attachments.list], [attachments.create],
    [attachments.createFromUrl] and [handleAttachmentsRedirect]) and of the
    client helper [uploadFile].

    Handlers are [async] functions over a Koa context: they read and write
    database tables, may throw, and talk to collaborators that live in other
    modules (the policy engine, [AttachmentHelper], the file storage, the
    presenters, the task queue).  The embedding threads an explicit [World]
    through a small state-and-exception monad; a thrown error keeps the
    world reached so far, exactly as a rejected promise leaves whatever was
    already committed.  The collaborators are the fields of the class
    [Collaborators]; every definition below is parametric in them. *)

From stdpp Require Import base strings gmap list pretty sorting.
From Stdlib Require Import ZArith Lia.

Open Scope Z_scope.

(** ** Data *)

(** JavaScript truthiness of an optional string: [undefined], [null] and
    the empty string are falsy. *)
Definition truthy (o : option string) : bool :=
  match o with
  | Some s => negb (String.eqb s "")
  | None => false
  end.

(** Modelled from the spec: the enum [AttachmentPreset] of [@shared/types]
    is imported but not defined in the routes.  The handlers only ever
    compare against [Avatar] and [DocumentAttachment]; the spec names those
    two "and other team-asset presets". *)
Inductive AttachmentPreset :=
| DocumentAttachment
| Avatar
| OtherPreset (name : string).

#[global] Instance AttachmentPreset_eq_dec : EqDecision AttachmentPreset.
Proof. solve_decision. Defined.

(** Access tier of a stored object, "one of {private, public}". *)
Inductive Acl := AclPrivate | AclPublic.

#[global] Instance Acl_eq_dec : EqDecision Acl.
Proof. solve_decision. Defined.

(** A row of the attachments table, with the columns the handlers write. *)
Record Attachment := mkAttachment {
  id : string;
  key : string;
  acl : Acl;
  size : Z;
  expiresAt : option Z;
  contentType : string;
  documentId : option string;
  teamId : string;
  userId : string;
  createdAt : Z;
  lastAccessedAt : option Z;
}.

(** Modelled from the spec: the getter [isPrivate] of the [Attachment] model
    is "derived from acl". *)
Definition isPrivate (a : Attachment) : bool := bool_decide (acl a = AclPrivate).

Record Team := mkTeam { team_id : string }.

Record User := mkUser {
  user_id : string;
  user_teamId : string;
  user_isAdmin : bool;
  user_team : Team;
}.

Record Document := mkDocument {
  doc_id : string;
  doc_teamId : string;
}.

(** The errors of [@server/errors] that the handlers raise, the generic
    rejection of a database call, and the [TypeError] of JavaScript for
    reading a property of [null]. *)
Inductive Error :=
| ValidationError (message : string)
| AuthorizationError
| InvalidRequestError (message : string)
| NotFoundError
| DatabaseError
| TypeError.

(** Values of a JSON object as the presenters build them. *)
Inductive JSValue :=
| JStr (s : string)
| JNum (n : Z)
| JNull.

(** The actions passed to [authorize], and what they are asked about.
    [Document.findByPk] may answer [null], which [authorize] receives. *)
Inductive Action := ActRead | ActUpdate | ActCreateAttachment.

Inductive Target :=
| OnDocument (d : option Document)
| OnTeam (t : Team).

(** ** The world a request runs in *)

(** A change notification, as emitted by a write that is not silent. *)
Inductive Notification :=
| AttachmentCreated (attachmentId : string)
| AttachmentUpdated (attachmentId : string).

(** What a request did to the transaction manager and to the task queue, in
    the order it happened. *)
Inductive Effect :=
| TxBegin
| TxCommit
| TxRollback
| RowInserted (a : Attachment)
| JobScheduled (attachmentId url : string).

Record World := mkWorld {
  attachments : list Attachment;
  documents : gmap string Document;
  notifications : list Notification;
  effects : list Effect;
  uuidCounter : nat;
  clock : Z;
  (** whether the database accepts writes while the request runs *)
  dbWritable : bool;
}.

Definition setAttachments (rows : list Attachment) (w : World) : World :=
  mkWorld rows (documents w) (notifications w) (effects w)
          (uuidCounter w) (clock w) (dbWritable w).

Definition notify (n : Notification) (w : World) : World :=
  mkWorld (attachments w) (documents w) (notifications w ++ [n]) (effects w)
          (uuidCounter w) (clock w) (dbWritable w).

Definition record (e : Effect) (w : World) : World :=
  mkWorld (attachments w) (documents w) (notifications w) (effects w ++ [e])
          (uuidCounter w) (clock w) (dbWritable w).

Definition tick (w : World) : World :=
  mkWorld (attachments w) (documents w) (notifications w) (effects w)
          (S (uuidCounter w)) (clock w) (dbWritable w).

(** ** Promises: state and exceptions *)

Inductive Outcome (A : Type) :=
| Returned (a : A)
| Thrown (e : Error).
Arguments Returned {A} a.
Arguments Thrown {A} e.

Definition Async (A : Type) : Type := World → Outcome A * World.

#[global] Instance Async_ret : MRet Async := λ A a w, (Returned a, w).

#[global] Instance Async_bind : MBind Async := λ A B k m w,
  match m w with
  | (Returned a, w') => k a w'
  | (Thrown e, w') => (Thrown e, w')
  end.

Definition throw {A} (e : Error) : Async A := λ w, (Thrown e, w).

Definition getWorld : Async World := λ w, (Returned w, w).

Definition modifyWorld (f : World → World) : Async unit := λ w, (Returned (), f w).

(** A database write.  Like every awaited call it may reject; the world
    says whether the database accepts writes while the request runs. *)
Definition dbWrite (f : World → World) : Async unit := λ w,
  if dbWritable w then (Returned (), f w) else (Thrown DatabaseError, w).

(** Modelled from the spec: the [transaction()] middleware is not part of
    the routes, and [sequelize.transaction(callback)] behaves the same way.
    What the body writes becomes permanent when the body resolves and is
    rolled back when it rejects. *)
Definition transaction {A} (body : Async A) : Async A := λ w,
  match body (record TxBegin w) with
  | (Returned a, w') => (Returned a, record TxCommit w')
  | (Thrown e, w') =>
      (Thrown e,
       record TxRollback
         (mkWorld (attachments w) (documents w) (notifications w) (effects w')
                  (uuidCounter w') (clock w') (dbWritable w')))
  end.

(** ** Requests and responses *)

Record Pagination := mkPagination {
  offset : nat;
  limit : nat;
}.

(** The parts of [APIContext] a handler reads: the authenticated user, the
    validated body, the [id] of the query string and the pagination. *)
Record APIContext (Body : Type) := mkContext {
  auth_user : User;
  input_body : Body;
  input_query_id : option string;
  state_pagination : Pagination;
}.
Arguments mkContext {Body}.
Arguments auth_user {Body}.
Arguments input_body {Body}.
Arguments input_query_id {Body}.
Arguments state_pagination {Body}.

Record AttachmentsListReq := mkListReq {
  list_documentId : option string;
  list_userId : option string;
}.

Record AttachmentCreateReq := mkCreateReq {
  create_name : string;
  create_documentId : option string;
  create_contentType : string;
  create_size : Z;
  create_preset : AttachmentPreset;
}.

Record AttachmentCreateFromUrlReq := mkCreateFromUrlReq {
  fromUrl_url : string;
  fromUrl_documentId : option string;
  fromUrl_preset : AttachmentPreset;
}.

Record AttachmentsRedirectReq := mkRedirectReq {
  redirect_id : option string;
}.

Record ListResponse := mkListResponse {
  list_pagination : Pagination;
  list_total : nat;
  list_data : list (gmap string JSValue);
  list_policies : list (gmap string JSValue);
}.

Record CreateResponse := mkCreateResponse {
  data_uploadUrl : string;
  data_form : gmap string JSValue;
  data_attachment : gmap string JSValue;
}.

(** The response half of a Koa context.  It starts as 404 without headers;
    [ctx.set] writes a header, [ctx.redirect] writes [Location] and turns
    a status that is not yet a redirect into 302. *)
Record Response := mkResponse {
  status : Z;
  headers : gmap string string;
}.

Definition initialResponse : Response := mkResponse 404 ∅.

Definition ctx_set (field value : string) (r : Response) : Response :=
  mkResponse (status r) (<[field := value]> (headers r)).

Definition ctx_redirect (location : string) (r : Response) : Response :=
  mkResponse 302 (<["Location" := location]> (headers r)).

(** ** Collaborators

    Code the routes import from other modules.  Each field stands for the
    function of that name; the handlers are written against this interface
    and every theorem holds for all of its implementations. *)
Class Collaborators := {
  (** the policy engine behind [authorize] *)
  can : User → Action → Target → bool;
  (** [AttachmentHelper] *)
  presetToMaxUploadSize : AttachmentPreset → Z;
  presetToAcl : AttachmentPreset → Acl;
  presetToExpiry : AttachmentPreset → option Z;
  getKey : Acl → string → string → string → string;
  (** [@shared/utils/files] and [@shared/validations] *)
  bytesToHumanReadable : Z → string;
  getFileNameFromUrl : string → option string;
  avatarContentTypes : list string;
  assertInMessage : string;
  (** [uuidv4]: the identifier drawn at the n-th call *)
  uuid : nat → string;
  (** [FileStorage] and [BaseStorage] *)
  getUploadUrl : string;
  getPresignedPost : string → Acl → Z → string → gmap string JSValue;
  defaultSignedUrlExpires : Z;
  (** getters of the [Attachment] model *)
  signedUrl : Attachment → string;
  canonicalUrl : Attachment → string;
  redirectUrl : Attachment → string;
  url : Attachment → string;
  (** presenters *)
  presentAttachment : Attachment → gmap string JSValue;
  presentPolicies : User → list Attachment → list (gmap string JSValue);
  (** [UploadAttachmentFromUrlTask]: run on a worker against the committed
      rows, it answers with a JSON object and may have changed the rows *)
  runUploadAttachmentFromUrlTask :
    string → string → list Attachment → gmap string string * list Attachment;
}.

Section Routes.
Context `{Collaborators}.

(** Modelled from the spec: [authorize] of [@server/policies] is not part of
    the routes; a denied permission is an [AuthorizationError]. *)
Definition authorize (user : User) (action : Action) (target : Target) : Async unit :=
  if can user action target then mret () else throw AuthorizationError.

(** Modelled from the spec: [assertIn] of [@server/validation] is not part of
    the routes; a value outside the allow-list is a [ValidationError]. *)
Definition assertIn (value : string) (options : list string) : Async unit :=
  if bool_decide (value ∈ options) then mret ()
  else throw (ValidationError assertInMessage).

Definition uuidv4 : Async string := λ w,
  (Returned (uuid (uuidCounter w)), tick w).

Definition now : Async Z := λ w, (Returned (clock w), w).

(** *** The ORM *)

Definition hasId (i : string) (a : Attachment) : bool := bool_decide (id a = i).

(** [Document.findByPk(documentId, ...)]: the document or [null]. *)
Definition Document_findByPk (documentId : string) : Async (option Document) :=
  w ← getWorld; mret (documents w !! documentId).

(** [Attachment.findByPk(id, { rejectOnEmpty: true })], together with the
    first use of its answer.  For an id that matches no row the call rejects.
    The handlers make no check of their own for an id that is [undefined]:
    the call then answers [null] without rejecting, and the statement that
    follows it in either handler reads a property of that answer
    ([attachment.isPrivate], [attachment.documentId]), which is a
    [TypeError]. *)
Definition Attachment_findByPk (i : option string) : Async Attachment :=
  w ← getWorld;
  match i with
  | None => throw TypeError
  | Some i =>
      match List.find (hasId i) (attachments w) with
      | Some a => mret a
      | None => throw NotFoundError
      end
  end.

(** Modelled from the spec: [Attachment.createWithCtx(ctx, values)] is
    defined with the models.  It inserts the row inside the transaction of
    [ctx] and announces the new attachment. *)
Definition Attachment_createWithCtx
    (i k : string) (a : Acl) (sz : Z) (expires : option Z) (ct : string)
    (doc : option string) (team usr : string) : Async Attachment :=
  created ← now;
  let row := mkAttachment i k a sz expires ct doc team usr created None in
  dbWrite (λ w, record (RowInserted row)
                  (notify (AttachmentCreated i)
                     (setAttachments (row :: attachments w) w)));;
  mret row.

Definition replaceRow (row : Attachment) (rows : list Attachment) : list Attachment :=
  map (λ a, if hasId (id row) a then row else a) rows.

Definition withLastAccessedAt (t : Z) (a : Attachment) : Attachment :=
  mkAttachment (id a) (key a) (acl a) (size a) (expiresAt a) (contentType a)
               (documentId a) (teamId a) (userId a) (createdAt a) (Some t).

(** Modelled from the spec: [attachment.update({ lastAccessedAt }, { silent })]
    is defined with the models.  It rewrites the row and hands back the
    updated instance; a silent update emits no change notification. *)
Definition Attachment_update (a : Attachment) (accessed : Z) (silent : bool)
    : Async Attachment :=
  let row := withLastAccessedAt accessed a in
  dbWrite (λ w,
    let w' := setAttachments (replaceRow row (attachments w)) w in
    if silent then w' else notify (AttachmentUpdated (id a)) w');;
  mret row.

(** [attachment.reload()]: the row as it is now; rejects when it is gone. *)
Definition Attachment_reload (a : Attachment) : Async Attachment :=
  w ← getWorld;
  match List.find (hasId (id a)) (attachments w) with
  | Some row => mret row
  | None => throw DatabaseError
  end.

(** A [where] clause, built by assignment as in the handler. *)
Record WhereOptions := mkWhere {
  where_teamId : option string;
  where_userId : option string;
  where_documentId : option string;
}.

Definition columnIs {A} `{EqDecision A} (wanted : option A) (actual : A) : bool :=
  match wanted with
  | Some v => bool_decide (actual = v)
  | None => true
  end.

Definition satisfies (where_ : WhereOptions) (a : Attachment) : bool :=
  columnIs (where_teamId where_) (teamId a)
  && columnIs (where_userId where_) (userId a)
  && match where_documentId where_ with
     | Some d => bool_decide (documentId a = Some d)
     | None => true
     end.

Definition newerFirst (a b : Attachment) : Prop := createdAt b ≤ createdAt a.

#[global] Instance newerFirst_dec : RelDecision newerFirst.
Proof. intros a b. unfold newerFirst. apply _. Defined.

(** [Attachment.findAll({ where, order: [["createdAt", "DESC"]], offset, limit })]. *)
Definition Attachment_findAll (where_ : WhereOptions) (offset limit : nat)
    : Async (list Attachment) :=
  w ← getWorld;
  mret (take limit (drop offset
          (merge_sort newerFirst (filter (λ a, satisfies where_ a = true) (attachments w))))).

(** [Attachment.count({ where })]. *)
Definition Attachment_count (where_ : WhereOptions) : Async nat :=
  w ← getWorld;
  mret (length (filter (λ a, satisfies where_ a = true) (attachments w))).

(** *** The task queue *)

(** [new UploadAttachmentFromUrlTask().schedule({ attachmentId, url })]. *)
Definition UploadAttachmentFromUrlTask_schedule (attachmentId url_ : string)
    : Async (string * string) :=
  modifyWorld (record (JobScheduled attachmentId url_));;
  mret (attachmentId, url_).

(** [job.finished()]: the worker has run the task against the rows that
    were committed when it started. *)
Definition job_finished (job : string * string) : Async (gmap string string) := λ w,
  let '(response, rows) :=
    runUploadAttachmentFromUrlTask job.1 job.2 (attachments w) in
  (Returned response, setAttachments rows w).

(** *** attachments.list *)

Definition attachmentsList (ctx : APIContext AttachmentsListReq) : Async ListResponse :=
  let documentId := list_documentId (input_body ctx) in
  let userId := list_userId (input_body ctx) in
  let user := auth_user ctx in
  let where_ := mkWhere (Some (user_teamId user)) None None in
  let where_ :=
    if truthy userId && user_isAdmin user
    then mkWhere (where_teamId where_) userId (where_documentId where_)
    else mkWhere (where_teamId where_) (Some (user_id user)) (where_documentId where_) in
  where_ ←
    (if truthy documentId then
       document ← Document_findByPk (default "" documentId);
       authorize user ActRead (OnDocument document);;
       mret (mkWhere (where_teamId where_) (where_userId where_) documentId)
     else mret where_);
  found ← Attachment_findAll where_ (offset (state_pagination ctx))
                                    (limit (state_pagination ctx));
  total ← Attachment_count where_;
  mret (mkListResponse (state_pagination ctx) total
          (map presentAttachment found) (presentPolicies user found)).

(** *** attachments.create *)

(** Lines 104-115: who may create the attachment. *)
Definition createAuthorization (ctx : APIContext AttachmentCreateReq) : Async unit :=
  let documentId := create_documentId (input_body ctx) in
  let preset := create_preset (input_body ctx) in
  let user := auth_user ctx in
  if bool_decide (preset = Avatar) then
    assertIn (create_contentType (input_body ctx)) avatarContentTypes
  else if bool_decide (preset = DocumentAttachment) && truthy documentId then
    document ← Document_findByPk (default "" documentId);
    authorize user ActUpdate (OnDocument document)
  else
    authorize user ActCreateAttachment (OnTeam (user_team user)).

Definition tooLargeMessage (maxUploadSize : Z) : string :=
  "Sorry, this file is too large – the maximum size is "
    +:+ bytesToHumanReadable maxUploadSize.

(** The handler proper, run by the [transaction()] middleware. *)
Definition attachmentsCreateHandler (ctx : APIContext AttachmentCreateReq)
    : Async CreateResponse :=
  let name := create_name (input_body ctx) in
  let documentId := create_documentId (input_body ctx) in
  let contentType := create_contentType (input_body ctx) in
  let size := create_size (input_body ctx) in
  let preset := create_preset (input_body ctx) in
  let user := auth_user ctx in
  createAuthorization ctx;;
  let maxUploadSize := presetToMaxUploadSize preset in
  if bool_decide (size > maxUploadSize) then
    throw (ValidationError (tooLargeMessage maxUploadSize))
  else
    modelId ← uuidv4;
    let acl := presetToAcl preset in
    let key := getKey acl modelId name (user_id user) in
    attachment ← Attachment_createWithCtx modelId key acl size
                   (presetToExpiry preset) contentType documentId
                   (user_teamId user) (user_id user);
    let presignedPost := getPresignedPost key acl maxUploadSize contentType in
    mret (mkCreateResponse
            getUploadUrl
            (presignedPost
               ∪ <["Content-Type" := JStr contentType]>
                   (<["Cache-Control" := JStr "max-age=31557600"]> ∅))
            (<["url" := JStr (if bool_decide (preset = DocumentAttachment)
                              then redirectUrl attachment
                              else url attachment)]>
               (presentAttachment attachment))).

Definition attachmentsCreate (ctx : APIContext AttachmentCreateReq)
    : Async CreateResponse :=
  transaction (attachmentsCreateHandler ctx).

(** *** attachments.createFromUrl *)

Definition onlyDocumentAttachments : string :=
  "Only document attachments can be created from a URL".

Definition attachmentsCreateFromUrl (ctx : APIContext AttachmentCreateFromUrlReq)
    : Async (gmap string JSValue) :=
  let url_ := fromUrl_url (input_body ctx) in
  let documentId := fromUrl_documentId (input_body ctx) in
  let preset := fromUrl_preset (input_body ctx) in
  let user := auth_user ctx in
  if negb (bool_decide (preset = DocumentAttachment)) || negb (truthy documentId) then
    throw (ValidationError onlyDocumentAttachments)
  else
    document ← Document_findByPk (default "" documentId);
    authorize user ActUpdate (OnDocument document);;
    let name := default "file" (getFileNameFromUrl url_) in
    modelId ← uuidv4;
    let acl := presetToAcl preset in
    let key := getKey acl modelId name (user_id user) in
    (* Does not use transaction middleware, as attachment must be persisted
       before the job is scheduled. *)
    attachment ← transaction
      (Attachment_createWithCtx modelId key acl 0 (presetToExpiry preset)
         "application/octet-stream" documentId (user_teamId user) (user_id user));
    job ← UploadAttachmentFromUrlTask_schedule (id attachment) url_;
    response ← job_finished job;
    match response !! "error" with
    | Some message => throw (InvalidRequestError message)
    | None =>
        attachment ← Attachment_reload attachment;
        mret (presentAttachment attachment)
    end.

(** The values handed to [Attachment.createWithCtx] on lines 235-245, as the
    row they become in a world [w]: a zero-byte placeholder. *)
Definition pendingAttachment (ctx : APIContext AttachmentCreateFromUrlReq) (w : World)
    : Attachment :=
  let user := auth_user ctx in
  let preset := fromUrl_preset (input_body ctx) in
  let modelId := uuid (uuidCounter w) in
  let name := default "file" (getFileNameFromUrl (fromUrl_url (input_body ctx))) in
  mkAttachment modelId (getKey (presetToAcl preset) modelId name (user_id user))
    (presetToAcl preset) 0 (presetToExpiry preset) "application/octet-stream"
    (fromUrl_documentId (input_body ctx)) (user_teamId user) (user_id user)
    (clock w) None.

(** *** attachments.redirect *)

(** [ctx.input.body.id ?? ctx.input.query.id] *)
Definition requestedId (ctx : APIContext AttachmentsRedirectReq) : option string :=
  match redirect_id (input_body ctx) with
  | Some i => Some i
  | None => input_query_id ctx
  end.

Definition handleAttachmentsRedirect (ctx : APIContext AttachmentsRedirectReq)
    : Async Response :=
  let i := requestedId ctx in
  let user := auth_user ctx in
  attachment ← Attachment_findByPk i;
  if isPrivate attachment
     && negb (bool_decide (teamId attachment = user_teamId user)) then
    throw AuthorizationError
  else
    accessed ← now;
    attachment ← Attachment_update attachment accessed true;
    if isPrivate attachment then
      mret (ctx_redirect (signedUrl attachment)
              (ctx_set "Cache-Control"
                 ("max-age=" +:+ pretty defaultSignedUrlExpires +:+ ", immutable")
                 initialResponse))
    else
      mret (ctx_redirect (canonicalUrl attachment)
              (ctx_set "Cache-Control" "max-age=604800, immutable"
                 initialResponse)).

End Routes.

(** ** The client upload helper *)

Module Client.

(** What a promise of the client settles to. *)
Inductive Failure :=
| RequestFailed (message : string)
| InvariantViolation (message : string)
| JsError (message : string).

Inductive Settled (A : Type) :=
| Resolved (a : A)
| Rejected (e : Failure).
Arguments Resolved {A} a.
Arguments Rejected {A} e.

(** A [File] carries a name, a [Blob] does not; [wrapped] is the payload of
    the legacy [{ blob, file }] shape the helper still accepts. *)
Record Upload := mkUpload {
  file_name : option string;
  file_type : string;
  file_size : Z;
  file_bytes : string;
  wrapped : option string;
}.

Record UploadOptions := mkOptions {
  opt_name : option string;
  opt_documentId : option string;
  opt_preset : AttachmentPreset;
}.

Record CreateArgs := mkCreateArgs {
  arg_preset : AttachmentPreset;
  arg_documentId : option string;
  arg_contentType : string;
  arg_size : Z;
  arg_name : option string;
}.

(** [response.data] of [/attachments.create]; [form] keeps its key order. *)
Record CreateData := mkCreateData {
  uploadUrl : string;
  form : list (string * string);
  attachment : gmap string JSValue;
}.

Inductive FormValue :=
| Field (value : string)
| Payload (bytes : string).

(** The two properties of the request object that the "loadend" listener
    reads. *)
Record XMLHttpRequest := mkXhr {
  readyState : Z;
  status : Z;
}.

(** How a request that was sent ends in a browser.  Either way the request
    is in state DONE (4) when "loadend" fires; after a network error the
    status reads 0. *)
Inductive Transport :=
| ResponseReceived (httpStatus : Z)
| NetworkError.

Definition atLoadend (t : Transport) : XMLHttpRequest :=
  match t with
  | ResponseReceived s => mkXhr 4 s
  | NetworkError => mkXhr 4 0
  end.

(** The test made by the "loadend" listener. *)
Definition loadendSuccess (xhr : XMLHttpRequest) : bool :=
  bool_decide (readyState xhr = 4)
  && bool_decide (status xhr >= 200)
  && bool_decide (status xhr < 400).

Section Upload.

(** [client.post("/attachments.create", ...)]: the response, which may be
    missing, or a rejection. *)
Variable post : CreateArgs → Settled (option CreateData).

(** The network: the request object as the "loadend" listener finds it,
    for a multipart POST to the upload URL. *)
Variable send : string → list (string * FormValue) → XMLHttpRequest.

(** The multipart form: the fields of the credential in their order, then
    the payload under [file]. *)
Definition formData (file : Upload) (data : CreateData) : list (string * FormValue) :=
  map (λ kv, (kv.1, Field kv.2)) (form data)
  ++ [("file", match wrapped file with
               | Some inner => Payload inner
               | None => Payload (file_bytes file)
               end)].

(** [uploadFile(file, options)].  The progress listener only calls
    [options.onProgress] and the "error" and "load" listeners only log;
    the promise is resolved by the "loadend" listener alone. *)
(** The body posted to [/attachments.create]. *)
Definition createArgs (file : Upload) (options : UploadOptions) : CreateArgs :=
  let name := match file_name file with
              | Some n => Some n
              | None => opt_name options
              end in
  mkCreateArgs (opt_preset options) (opt_documentId options)
    (file_type file) (file_size file) name.

Definition uploadFile (file : Upload) (options : UploadOptions)
    : Settled (gmap string JSValue) :=
  match post (createArgs file options) with
  | Rejected e => Rejected e
  | Resolved None => Rejected (InvariantViolation "Response should be available")
  | Resolved (Some data) =>
      let xhr := send (uploadUrl data) (formData file data) in
      let success := loadendSuccess xhr in
      if negb success then Rejected (JsError "Upload failed")
      else Resolved (attachment data)
  end.

End Upload.

End Client.

(** ** A reference deployment

    One implementation of the collaborators and a small database, on which
    the handlers can be run. *)

Module Deployment.

(** Modelled from the spec: the Remote-Fetch Job ([UploadAttachmentFromUrlTask])
    is not part of the routes.  It fetches the URL, reports a failure as an
    object with an [error] field and leaves the rows alone, or fills in the
    size and the content type of the attachment. *)
Definition uploadAttachmentFromUrlTask
    (fetch : string → string + Z * string) (maxSize : Z)
    (attachmentId url_ : string) (rows : list Attachment)
    : gmap string string * list Attachment :=
  match fetch url_ with
  | inl message => ({["error" := message]}, rows)
  | inr (sz, ct) =>
      if bool_decide (sz > maxSize) then ({["error" := "File is too large"]}, rows)
      else (∅,
            map (λ a, if bool_decide (id a = attachmentId)
                      then mkAttachment (id a) (key a) (acl a) sz (expiresAt a) ct
                             (documentId a) (teamId a) (userId a) (createdAt a)
                             (lastAccessedAt a)
                      else a) rows)
  end.

Definition fetch (url_ : string) : string + Z * string :=
  if String.eqb url_ "https://example.com/logo.png" then inr (2048, "image/png")
  else inl "Unable to fetch the file".

Definition maxUploadSize (preset : AttachmentPreset) : Z :=
  match preset with
  | Avatar => 5000
  | DocumentAttachment => 100000
  | OtherPreset _ => 100000
  end.

#[export] Instance collaborators : Collaborators := {|
  can user action target :=
    match action, target with
    | ActCreateAttachment, OnTeam t => bool_decide (team_id t = user_teamId user)
    | ActRead, OnDocument (Some d) => bool_decide (doc_teamId d = user_teamId user)
    | ActUpdate, OnDocument (Some d) =>
        bool_decide (doc_teamId d = user_teamId user) && user_isAdmin user
    | _, _ => false
    end;
  presetToMaxUploadSize := maxUploadSize;
  presetToAcl preset :=
    match preset with
    | Avatar => AclPublic
    | _ => AclPrivate
    end;
  presetToExpiry preset := None;
  getKey a i name usr := "uploads/" +:+ usr +:+ "/" +:+ i +:+ "/" +:+ name;
  bytesToHumanReadable n := pretty n +:+ " Bytes";
  getFileNameFromUrl url_ := None;
  avatarContentTypes := ["image/png"; "image/jpeg"];
  assertInMessage := "Must be one of image/png, image/jpeg";
  uuid n := "id-" +:+ pretty n;
  getUploadUrl := "https://storage.example.com";
  getPresignedPost k a maxSize ct := {["key" := JStr k]};
  defaultSignedUrlExpires := 60;
  signedUrl a := "https://storage.example.com/" +:+ key a +:+ "?signature";
  canonicalUrl a := "https://storage.example.com/" +:+ key a;
  redirectUrl a := "/api/attachments.redirect?id=" +:+ id a;
  url a := "https://storage.example.com/" +:+ key a;
  presentAttachment a :=
    <["id" := JStr (id a)]>
      (<["size" := JNum (size a)]>
         {["url" := JStr ("https://storage.example.com/" +:+ key a)]});
  presentPolicies user rows := [];
  runUploadAttachmentFromUrlTask := uploadAttachmentFromUrlTask fetch 100000;
|}.

Definition acme : Team := mkTeam "acme".
Definition alice : User := mkUser "alice" "acme" false acme.
Definition root : User := mkUser "root" "acme" true acme.
Definition mallory : User := mkUser "mallory" "globex" false (mkTeam "globex").

Definition handbook : Document := mkDocument "handbook" "acme".

Definition report : Attachment :=
  mkAttachment "report" "uploads/root/report/report.pdf" AclPrivate 512 None
    "application/pdf" (Some "handbook") "acme" "root" 10 None.

Definition logo : Attachment :=
  mkAttachment "logo" "avatars/alice/logo/logo.png" AclPublic 64 None
    "image/png" None "acme" "alice" 20 None.

Definition database (writable : bool) : World :=
  mkWorld [report; logo] {["handbook" := handbook]} [] [] 0 1000 writable.

Definition firstPage : Pagination := mkPagination 0 25.

(** Requests to [attachments.create]. *)
Definition oversizedByRoot : APIContext AttachmentCreateReq :=
  mkContext root
    (mkCreateReq "scan.pdf" (Some "handbook") "application/pdf" 200000 DocumentAttachment)
    None firstPage.

Definition oversizedByAlice : APIContext AttachmentCreateReq :=
  mkContext alice
    (mkCreateReq "scan.pdf" (Some "handbook") "application/pdf" 200000 DocumentAttachment)
    None firstPage.

Definition looseAttachment : APIContext AttachmentCreateReq :=
  mkContext alice
    (mkCreateReq "notes.txt" None "text/plain" 200 DocumentAttachment)
    None firstPage.

(** A session whose user row says acme while the team it loads is another
    one: the policy of the deployment refuses [createAttachment] on it. *)
Definition stray : User := mkUser "stray" "acme" true (mkTeam "globex").

Definition looseAttachmentByStray : APIContext AttachmentCreateReq :=
  mkContext stray
    (mkCreateReq "notes.txt" None "text/plain" 200 DocumentAttachment)
    None firstPage.

(** Requests to [attachments.createFromUrl]. *)
Definition avatarFromUrl : APIContext AttachmentCreateFromUrlReq :=
  mkContext root
    (mkCreateFromUrlReq "https://example.com/logo.png" (Some "handbook") Avatar)
    None firstPage.

Definition importLogo : APIContext AttachmentCreateFromUrlReq :=
  mkContext root
    (mkCreateFromUrlReq "https://example.com/logo.png" (Some "handbook") DocumentAttachment)
    None firstPage.

Definition importMissing : APIContext AttachmentCreateFromUrlReq :=
  mkContext root
    (mkCreateFromUrlReq "https://example.com/gone" (Some "handbook") DocumentAttachment)
    None firstPage.

(** Requests to [attachments.redirect]. *)
Definition openLogo : APIContext AttachmentsRedirectReq :=
  mkContext alice (mkRedirectReq (Some "logo")) None firstPage.

Definition openReport : APIContext AttachmentsRedirectReq :=
  mkContext alice (mkRedirectReq None) (Some "report") firstPage.

Definition peekReport : APIContext AttachmentsRedirectReq :=
  mkContext mallory (mkRedirectReq (Some "report")) None firstPage.

(** A client whose request for a credential is granted, and a storage that
    answers every upload with 204. *)
Definition credential : Client.CreateData :=
  Client.mkCreateData "https://storage.example.com"
    [("key", "uploads/alice/id-0/notes.txt"); ("Content-Type", "text/plain")]
    {["id" := JStr "id-0"]}.

Definition notes : Client.Upload :=
  Client.mkUpload (Some "notes.txt") "text/plain" 200 "remember the milk" None.

Definition asDocumentAttachment : Client.UploadOptions :=
  Client.mkOptions None None DocumentAttachment.

Definition granted (args : Client.CreateArgs) : Client.Settled (option Client.CreateData) :=
  Client.Resolved (Some credential).

Definition storageAnswers (httpStatus : Z) (uploadUrl : string)
    (body : list (string * Client.FormValue)) : Client.XMLHttpRequest :=
  Client.atLoadend (Client.ResponseReceived httpStatus).

End Deployment.

(** ** attachments.delete *)

(** The policy engine, asked whether a user may delete an attachment:
    what [authorize(user, "delete", attachment)] consults. *)
Class AttachmentPolicy := {
  canDelete : User → Attachment → bool;
}.

Record AttachmentDeleteReq := mkDeleteReq {
  delete_id : string;
}.

Section DeleteRoute.
Context `{Collaborators} `{AttachmentPolicy}.

(** Modelled from the spec: [authorize] of [@server/policies], here for the
    action [delete] on an attachment; a denied permission is an
    [AuthorizationError]. *)
Definition authorizeDelete (user : User) (a : Attachment) : Async unit :=
  if canDelete user a then mret () else throw AuthorizationError.

(** Modelled from the spec: [attachment.destroyWithCtx(ctx)] is defined with
    the models.  It removes the record; the removal of the stored object and
    whatever the model announces are left to the model and are not part of
    the world here. *)
Definition Attachment_destroyWithCtx (a : Attachment) : Async unit :=
  dbWrite (λ w, setAttachments (filter (λ row, id row ≠ id a) (attachments w)) w).

(** The handler proper, run by the [transaction()] middleware.  The row lock
    taken by [findByPk] orders concurrent requests and has no effect on a
    single one. *)
Definition attachmentsDeleteHandler (ctx : APIContext AttachmentDeleteReq)
    : Async bool :=
  let i := delete_id (input_body ctx) in
  let user := auth_user ctx in
  attachment ← Attachment_findByPk (Some i);
  (if truthy (documentId attachment) then
     document ← Document_findByPk (default "" (documentId attachment));
     authorize user ActUpdate (OnDocument document)
   else mret ());;
  authorizeDelete user attachment;;
  Attachment_destroyWithCtx attachment;;
  mret true.

Definition attachmentsDelete (ctx : APIContext AttachmentDeleteReq) : Async bool :=
  transaction (attachmentsDeleteHandler ctx).

End DeleteRoute.

(** ** The other exports of the upload helper's file *)

Module Files.

(** A JavaScript string is handled as the sequence of its UTF-16 code units,
    which is what [charCodeAt], [length] and [slice] work on. *)
Definition CHAR_FORWARD_SLASH : Z := 47.
Definition CHAR_DOT : Z := 46.

(** [s.charCodeAt(i)].  Outside the string JavaScript answers [NaN], which
    equals no character code; [-1] plays that part. *)
Definition charCodeAt (s : list Z) (i : nat) : Z := default (-1) (s !! i).

(** [s.slice(from, to)], with JavaScript's treatment of negative and
    oversized bounds. *)
Definition slice (s : list Z) (from to : Z) : list Z :=
  let len := Z.of_nat (length s) in
  let clamp k := if k <? 0 then Z.max (len + k) 0 else Z.min k len in
  take (Z.to_nat (clamp to - clamp from)) (drop (Z.to_nat (clamp from)) s).

(** The variables of the loop of [extname]. *)
Record Scan := mkScan {
  startDot : Z;
  startPart : Z;
  end_ : Z;
  matchedSlash : bool;
  preDotState : Z;
}.

Definition initialScan : Scan := mkScan (-1) 0 (-1) true 0.

(** The loop [for (let i = path.length - 1; i >= 0; --i)], entered with
    [i = n - 1]. *)
Fixpoint scan (path : list Z) (n : nat) (s : Scan) : Scan :=
  match n with
  | O => s
  | S i =>
      let code := charCodeAt path i in
      if code =? CHAR_FORWARD_SLASH then
        (* If we reached a path separator that was not part of a set of path
           separators at the end of the string, stop now *)
        if negb (matchedSlash s)
        then mkScan (startDot s) (Z.of_nat i + 1) (end_ s) (matchedSlash s)
                    (preDotState s)
        else scan path i s
      else
        (* We saw the first non-path separator, mark this as the end of our
           extension *)
        let s1 :=
          if end_ s =? -1
          then mkScan (startDot s) (startPart s) (Z.of_nat i + 1) false (preDotState s)
          else s in
        let s2 :=
          if code =? CHAR_DOT then
            (* If this is our first dot, mark it as the start of our extension *)
            if startDot s1 =? -1
            then mkScan (Z.of_nat i) (startPart s1) (end_ s1) (matchedSlash s1)
                        (preDotState s1)
            else if negb (preDotState s1 =? 1)
            then mkScan (startDot s1) (startPart s1) (end_ s1) (matchedSlash s1) 1
            else s1
          else if negb (startDot s1 =? -1)
          (* We saw a non-dot and non-path separator before our dot, so we
             should have a good chance at having a non-empty extension *)
          then mkScan (startDot s1) (startPart s1) (end_ s1) (matchedSlash s1) (-1)
          else s1 in
        scan path i s2
  end.

(** The first statement of a turn for a character that is no slash: the end
    of the last component is marked, once. *)
Definition markEnd (i : nat) (s : Scan) : Scan :=
  if end_ s =? -1
  then mkScan (startDot s) (startPart s) (Z.of_nat i + 1) false (preDotState s)
  else s.

(** The whole turn for a character [c] at index [i] that is no slash. *)
Definition turn (i : nat) (c : Z) (s : Scan) : Scan :=
  let s1 := markEnd i s in
  if c =? CHAR_DOT then
    if startDot s1 =? -1
    then mkScan (Z.of_nat i) (startPart s1) (end_ s1) (matchedSlash s1) (preDotState s1)
    else if negb (preDotState s1 =? 1)
    then mkScan (startDot s1) (startPart s1) (end_ s1) (matchedSlash s1) 1
    else s1
  else if negb (startDot s1 =? -1)
  then mkScan (startDot s1) (startPart s1) (end_ s1) (matchedSlash s1) (-1)
  else s1.

(** The same variables for the same component seen [k] characters further
    into a longer path. *)
Definition shift (k : Z) (s : Scan) : Scan :=
  mkScan (if startDot s =? -1 then -1 else startDot s + k)
         (startPart s)
         (if end_ s =? -1 then -1 else end_ s + k)
         (matchedSlash s) (preDotState s).

(** A character that is neither a dot nor a slash. *)
Definition plain (c : Z) : Prop := c ≠ CHAR_DOT ∧ c ≠ CHAR_FORWARD_SLASH.

(** [startDot] and [end] are [-1] or not negative. *)
Definition sentinels (s : Scan) : Prop :=
  (startDot s = -1 ∨ 0 ≤ startDot s) ∧ (end_ s = -1 ∨ 0 ≤ end_ s).

(** [startDot] is the dot at [d] and [end] is [e]: from the dot to [e] the
    characters are plain, and from [e] on the path has only slashes. *)
Definition found (p : list Z) (s : Scan) (d e : nat) : Prop :=
  startDot s = Z.of_nat d
  ∧ end_ s = Z.of_nat e
  ∧ (d < e ≤ length p)%nat
  ∧ charCodeAt p d = CHAR_DOT
  ∧ (∀ j, (d < j < e)%nat → plain (charCodeAt p j))
  ∧ (∀ j, (e ≤ j < length p)%nat → charCodeAt p j = CHAR_FORWARD_SLASH).

(** What the loop knows when it enters a turn with [i = n - 1]: nothing but
    slashes so far; or the end of the last component and only plain
    characters below it; or the end and the last dot of that component. *)
Definition scanning (p : list Z) (n : nat) (s : Scan) : Prop :=
  (end_ s = -1 ∧ startDot s = -1
   ∧ ∀ j, (n ≤ j < length p)%nat → charCodeAt p j = CHAR_FORWARD_SLASH)
  ∨ ∃ e : nat,
      end_ s = Z.of_nat e ∧ (n < e ≤ length p)%nat ∧ matchedSlash s = false
      ∧ (∀ j, (e ≤ j < length p)%nat → charCodeAt p j = CHAR_FORWARD_SLASH)
      ∧ ((startDot s = -1 ∧ ∀ j, (n ≤ j < e)%nat → plain (charCodeAt p j))
         ∨ ∃ d : nat,
             startDot s = Z.of_nat d ∧ (n ≤ d < e)%nat
             ∧ charCodeAt p d = CHAR_DOT
             ∧ ∀ j, (d < j < e)%nat → plain (charCodeAt p j)).

(** [startDot] and [end] are [-1] or positions in a string of length [len]. *)
Definition inRange (len : nat) (s : Scan) : Prop :=
  (startDot s = -1 ∨ 0 ≤ startDot s < Z.of_nat len)
  ∧ (end_ s = -1 ∨ 0 < end_ s ≤ Z.of_nat len).

(** What the caller passed: a string, or a value of another type, known by
    its [typeof]. *)
Inductive Argument :=
| StringArg (path : list Z)
| OtherArg (typeOf : string).

Definition doubleQuote : string :=
  String (Ascii.Ascii false true false false false true false false) EmptyString.

Definition notAString (typeOf : string) : string :=
  "The " +:+ doubleQuote +:+ "path" +:+ doubleQuote
    +:+ " argument must be of type string. Received type " +:+ typeOf.

(** The extension that the loop has found, if any. *)
Definition extension (path : list Z) (s : Scan) : list Z :=
  if (startDot s =? -1)
     || (end_ s =? -1)
     || (preDotState s =? 0)
     || ((preDotState s =? 1)
         && (startDot s =? end_ s - 1)
         && (startDot s =? startPart s + 1))
  then []
  else slice path (startDot s) (end_ s).

(** [extname(path)]: the extension or a [TypeError]. *)
Definition extname (arg : Argument) : string + list Z :=
  match arg with
  | OtherArg typeOf => inl (notAString typeOf)
  | StringArg path => inr (extension path (scan path (length path) initialScan))
  end.

(** [dataURL.split(",")]: the pieces between the commas. *)
Fixpoint splitOnComma (s : list Z) : list (list Z) :=
  match s with
  | [] => [[]]
  | c :: rest =>
      if c =? 44 then [] :: splitOnComma rest
      else match splitOnComma rest with
           | piece :: pieces => (c :: piece) :: pieces
           | [] => [[c]]
           end
  end.

(** A [Blob]: its bytes and its type. *)
Record Blob := mkBlob {
  blob_bytes : list Z;
  blob_type : string;
}.

Section DataUrl.

(** [atob], the Base64 decoder of the browser: the decoded binary string, or
    nothing when it throws. *)
Variable atob : list Z → option (list Z).

(** The code units of the string [undefined], which is what [atob] is given
    when [split] has produced no second piece. *)
Definition undefinedAsString : list Z := [117; 110; 100; 101; 102; 105; 110; 101; 100].

(** [dataUrlToBlob(dataURL)].  A [Uint8Array] keeps each number modulo 256. *)
Definition dataUrlToBlob (dataURL : list Z) : option Blob :=
  let encoded := default undefinedAsString (splitOnComma dataURL !! 1%nat) in
  blobBin ← atob encoded;
  Some (mkBlob (map (λ code, code `mod` 256) blobBin) "image/png").

End DataUrl.

(** The code units of a string of ASCII characters. *)
Definition units (s : string) : list Z :=
  map (λ c, Z.of_nat (Ascii.nat_of_ascii c)) (String.list_ascii_of_string s).

End Files.

(** ** More requests against the reference deployment *)

Module Scenarios.
Import Deployment.

(** Owners delete their own attachments, admins those of their team. *)
#[export] Instance attachmentPolicy : AttachmentPolicy := {|
  canDelete user a :=
    bool_decide (userId a = user_id user)
    || (user_isAdmin user && bool_decide (teamId a = user_teamId user));
|}.

Definition deleteReport (user : User) : APIContext AttachmentDeleteReq :=
  mkContext user (mkDeleteReq "report") None firstPage.

Definition deleteLogo (user : User) : APIContext AttachmentDeleteReq :=
  mkContext user (mkDeleteReq "logo") None firstPage.

Definition listAs (user : User) (d f : option string) (p : Pagination)
    : APIContext AttachmentsListReq :=
  mkContext user (mkListReq d f) None p.

(** Alice's uploads, stored out of order among those of others. *)
Definition sketch : Attachment :=
  mkAttachment "sketch" "uploads/alice/sketch/sketch.png" AclPrivate 128 None
    "image/png" None "acme" "alice" 15 None.

Definition draft : Attachment :=
  mkAttachment "draft" "uploads/alice/draft/draft.txt" AclPrivate 32 None
    "text/plain" (Some "handbook") "acme" "alice" 30 None.

Definition gallery : World :=
  mkWorld [sketch; report; draft; logo] {["handbook" := handbook]} [] [] 0 1000 true.

Definition avatarUpload (ct : string) : APIContext AttachmentCreateReq :=
  mkContext mallory (mkCreateReq "me.png" None ct 4000 Avatar) None firstPage.

Definition redirectTo (user : User) (i : string) : APIContext AttachmentsRedirectReq :=
  mkContext user (mkRedirectReq (Some i)) None firstPage.

Definition importAs (user : User) : APIContext AttachmentCreateFromUrlReq :=
  mkContext user
    (mkCreateFromUrlReq "https://example.com/logo.png" (Some "handbook") DocumentAttachment)
    None firstPage.

(** The row of [importLogo] once the job has fetched the file. *)
Definition importedLogo : Attachment :=
  mkAttachment "id-0" "uploads/root/id-0/file" AclPrivate 2048 None "image/png"
    (Some "handbook") "acme" "root" 1000 None.

Definition deleteUnknown : APIContext AttachmentDeleteReq :=
  mkContext root (mkDeleteReq "nowhere") None firstPage.

(** A decoder that knows one word: [AAAA] is three zero bytes. *)
Definition decodeZeros (encoded : list Z) : option (list Z) :=
  if decide (encoded = Files.units "AAAA") then Some [0; 0; 0] else None.

End Scenarios.

(** * Properties of the routes *)

Section RouteProperties.
Context `{Collaborators}.

(** ** Running a promise *)

Lemma run_bind {A B} (m : Async A) (k : A → Async B) (w : World) :
  (m ≫= k) w =
  match m w with
  | (Returned a, w') => k a w'
  | (Thrown e, w') => (Thrown e, w')
  end.
Proof. reflexivity. Qed.

Lemma run_bind_returned {A B} (m : Async A) (k : A → Async B) w a w' :
  m w = (Returned a, w') → (m ≫= k) w = k a w'.
Proof. intros Hm. rewrite run_bind, Hm. reflexivity. Qed.

Lemma run_bind_thrown {A B} (m : Async A) (k : A → Async B) w e w' :
  m w = (Thrown e, w') → (m ≫= k) w = (Thrown e, w').
Proof. intros Hm. rewrite run_bind, Hm. reflexivity. Qed.

Lemma run_authorize user action target w :
  authorize user action target w =
  (if can user action target then Returned () else Thrown AuthorizationError, w).
Proof. unfold authorize. destruct (can user action target); reflexivity. Qed.

Lemma run_Document_findByPk d w :
  Document_findByPk d w = (Returned (documents w !! d), w).
Proof. reflexivity. Qed.

(** The authorization step of [attachments.create] only reads: it leaves
    the world as it found it, and its verdict does not depend on the
    effects recorded so far. *)
Lemma createAuthorization_reads ctx w :
  (createAuthorization ctx w).2 = w.
Proof.
  unfold createAuthorization, assertIn.
  repeat case_match; try reflexivity.
  all: rewrite ?run_bind, ?run_Document_findByPk, ?run_authorize; reflexivity.
Qed.

Lemma createAuthorization_record ctx e w :
  (createAuthorization ctx (record e w)).1 = (createAuthorization ctx w).1.
Proof.
  unfold createAuthorization, assertIn.
  repeat case_match; try reflexivity.
  all: rewrite ?run_bind, ?run_Document_findByPk, ?run_authorize; reflexivity.
Qed.

Lemma createAuthorization_run ctx w :
  createAuthorization ctx w = ((createAuthorization ctx w).1, w).
Proof.
  rewrite <- (createAuthorization_reads ctx w) at 3.
  destruct (createAuthorization ctx w); reflexivity.
Qed.

(** ** attachments.createFromUrl: validation *)

(** C4.  A request to [attachments.createFromUrl] whose preset is not
    [DocumentAttachment], or which names no document, fails with a
    [ValidationError], and the world (hence the attachments table) is exactly
    what it was: no record is persisted. *)
Theorem createFromUrl_requires_document_attachment
    (ctx : APIContext AttachmentCreateFromUrlReq) (w : World) :
  fromUrl_preset (input_body ctx) ≠ DocumentAttachment
  ∨ fromUrl_documentId (input_body ctx) = None →
  attachmentsCreateFromUrl ctx w
  = (Thrown (ValidationError onlyDocumentAttachments), w).
Proof.
  intros Hbad. unfold attachmentsCreateFromUrl.
  destruct Hbad as [Hpreset | Hdoc].
  - rewrite bool_decide_eq_false_2 by exact Hpreset. reflexivity.
  - rewrite Hdoc. simpl. rewrite orb_true_r. reflexivity.
Qed.

(** The same holds for a document id that is present but empty, which
    JavaScript treats as missing. *)
Lemma createFromUrl_rejects_falsy_document
    (ctx : APIContext AttachmentCreateFromUrlReq) (w : World) :
  truthy (fromUrl_documentId (input_body ctx)) = false →
  attachmentsCreateFromUrl ctx w
  = (Thrown (ValidationError onlyDocumentAttachments), w).
Proof.
  intros Hdoc. unfold attachmentsCreateFromUrl.
  rewrite Hdoc. simpl. rewrite orb_true_r. reflexivity.
Qed.

(** ** attachments.create: the size limit *)

(** What the [transaction()] middleware leaves behind when the handler
    throws before it has written anything. *)
Lemma transaction_thrown_early {A} (body : Async A) w e :
  body (record TxBegin w) = (Thrown e, record TxBegin w) →
  transaction body w = (Thrown e, record TxRollback (record TxBegin w)).
Proof.
  intros Hbody. unfold transaction. rewrite Hbody. destruct w; reflexivity.
Qed.

(** The verdict of the authorization step, branch by branch. *)
Lemma createAuthorization_verdict (ctx : APIContext AttachmentCreateReq) (w : World) :
  (createAuthorization ctx w).1
  = if bool_decide (create_preset (input_body ctx) = Avatar) then
      if bool_decide (create_contentType (input_body ctx) ∈ avatarContentTypes)
      then Returned () else Thrown (ValidationError assertInMessage)
    else if bool_decide (create_preset (input_body ctx) = DocumentAttachment)
            && truthy (create_documentId (input_body ctx)) then
      if can (auth_user ctx) ActUpdate
           (OnDocument (documents w !! default "" (create_documentId (input_body ctx))))
      then Returned () else Thrown AuthorizationError
    else
      if can (auth_user ctx) ActCreateAttachment (OnTeam (user_team (auth_user ctx)))
      then Returned () else Thrown AuthorizationError.
Proof.
  unfold createAuthorization, assertIn.
  repeat case_match; try reflexivity.
  all: rewrite ?run_bind, ?run_Document_findByPk, ?run_authorize;
    repeat case_match; try reflexivity; congruence.
Qed.

(** C3, as the code has it.  A direct [attachments.create] whose size exceeds
    the limit of its preset always fails and persists nothing.  The handler
    runs the authorization step first: the allow-list of content types for
    an avatar, the update permission on the document for a document
    attachment that names one, the team-level permission otherwise.  When the
    request passes that step the failure is the [ValidationError] whose
    message ends in the human-readable limit; when it does not, the failure
    is the error of that step, and the size is never looked at. *)
Theorem create_rejects_oversized
    (ctx : APIContext AttachmentCreateReq) (w : World) :
  create_size (input_body ctx)
    > presetToMaxUploadSize (create_preset (input_body ctx)) →
  ∃ e w',
    attachmentsCreate ctx w = (Thrown e, w')
    ∧ attachments w' = attachments w
    ∧ notifications w' = notifications w
    ∧ ((createAuthorization ctx w).1 = Returned () →
       e = ValidationError
             (tooLargeMessage (presetToMaxUploadSize (create_preset (input_body ctx)))))
    ∧ (∀ refusal, (createAuthorization ctx w).1 = Thrown refusal → e = refusal)
    ∧ e = (let tooLarge :=
             ValidationError
               (tooLargeMessage
                  (presetToMaxUploadSize (create_preset (input_body ctx)))) in
           if bool_decide (create_preset (input_body ctx) = Avatar) then
             if bool_decide (create_contentType (input_body ctx) ∈ avatarContentTypes)
             then tooLarge else ValidationError assertInMessage
           else if bool_decide (create_preset (input_body ctx) = DocumentAttachment)
                   && truthy (create_documentId (input_body ctx)) then
             if can (auth_user ctx) ActUpdate
                  (OnDocument
                     (documents w !! default "" (create_documentId (input_body ctx))))
             then tooLarge else AuthorizationError
           else
             if can (auth_user ctx) ActCreateAttachment
                  (OnTeam (user_team (auth_user ctx)))
             then tooLarge else AuthorizationError).
Proof.
  intros Hsize.
  pose proof (createAuthorization_run ctx (record TxBegin w)) as Hauth.
  rewrite createAuthorization_record in Hauth.
  pose proof (createAuthorization_verdict ctx w) as Hverdict.
  destruct (createAuthorization ctx w).1 as [[] | refused] eqn:Hstep.
  - exists (ValidationError
             (tooLargeMessage (presetToMaxUploadSize (create_preset (input_body ctx))))),
           (record TxRollback (record TxBegin w)).
    split.
    { unfold attachmentsCreate. apply transaction_thrown_early.
      unfold attachmentsCreateHandler.
      rewrite (run_bind_returned _ _ _ _ _ Hauth).
      rewrite bool_decide_eq_true_2 by exact Hsize. reflexivity. }
    split; [by destruct w |]. split; [by destruct w |].
    split; [reflexivity |]. split; [discriminate |].
    cbv zeta. repeat case_match; try reflexivity; discriminate.
  - exists refused, (record TxRollback (record TxBegin w)).
    split.
    { unfold attachmentsCreate. apply transaction_thrown_early.
      unfold attachmentsCreateHandler.
      rewrite (run_bind_thrown _ _ _ _ _ Hauth). reflexivity. }
    split; [by destruct w |]. split; [by destruct w |].
    split; [discriminate |]. split; [congruence |].
    cbv zeta. repeat case_match; congruence.
Qed.

(** ** attachments.create: the successful path *)

(** What a successful [attachments.create] has done: the request passed the
    authorization step and the size check, one row was added on top of the
    table, and the response projects that row. *)
Lemma attachmentsCreate_returned
    (ctx : APIContext AttachmentCreateReq) (w w' : World) (body : CreateResponse) :
  attachmentsCreate ctx w = (Returned body, w') →
  ∃ row,
    attachments w' = row :: attachments w
    ∧ id row = uuid (uuidCounter w)
    ∧ size row = create_size (input_body ctx)
    ∧ documentId row = create_documentId (input_body ctx)
    ∧ userId row = user_id (auth_user ctx)
    ∧ data_attachment body
      = <["url" := JStr (if bool_decide (create_preset (input_body ctx) = DocumentAttachment)
                         then redirectUrl row else url row)]>
          (presentAttachment row)
    ∧ (createAuthorization ctx w).1 = Returned ()
    ∧ create_size (input_body ctx)
        ≤ presetToMaxUploadSize (create_preset (input_body ctx)).
Proof.
  pose proof (createAuthorization_run ctx (record TxBegin w)) as Hauth.
  rewrite createAuthorization_record in Hauth.
  unfold attachmentsCreate, transaction, attachmentsCreateHandler.
  rewrite run_bind, Hauth.
  destruct (createAuthorization ctx w).1 as [[] | e]; [| discriminate].
  case_bool_decide as Hsize; [discriminate |].
  unfold uuidv4, Attachment_createWithCtx, now, dbWrite.
  rewrite !run_bind. cbn.
  destruct (dbWritable w); cbn; [| discriminate].
  intros [= <- <-]. eexists. cbn.
  repeat split; lia.
Qed.

Lemma attachmentsCreate_succeeds
    (ctx : APIContext AttachmentCreateReq) (w : World) :
  (createAuthorization ctx w).1 = Returned () →
  create_size (input_body ctx)
    ≤ presetToMaxUploadSize (create_preset (input_body ctx)) →
  dbWritable w = true →
  ∃ body w', attachmentsCreate ctx w = (Returned body, w').
Proof.
  intros Hverdict Hsize Hdb.
  pose proof (createAuthorization_run ctx (record TxBegin w)) as Hauth.
  rewrite createAuthorization_record, Hverdict in Hauth.
  unfold attachmentsCreate, transaction, attachmentsCreateHandler.
  rewrite run_bind, Hauth.
  rewrite bool_decide_eq_false_2 by lia.
  unfold uuidv4, Attachment_createWithCtx, now, dbWrite.
  rewrite !run_bind. cbn. rewrite Hdb. cbn. eauto.
Qed.

(** C8.  When a direct [attachments.create] with preset [DocumentAttachment]
    succeeds, the [url] of the attachment in the response is the
    [redirectUrl] of the row that was just created, whatever [url] the
    presenter had put there. *)
Theorem create_document_attachment_url_is_redirectUrl
    (ctx : APIContext AttachmentCreateReq) (w w' : World) (body : CreateResponse) :
  create_preset (input_body ctx) = DocumentAttachment →
  attachmentsCreate ctx w = (Returned body, w') →
  ∃ row,
    attachments w' = row :: attachments w
    ∧ id row = uuid (uuidCounter w)
    ∧ data_attachment body !! "url" = Some (JStr (redirectUrl row)).
Proof.
  intros Hpreset Hrun.
  destruct (attachmentsCreate_returned ctx w w' body Hrun)
    as (row & Hrows & Hid & _ & _ & _ & Hprojection & _).
  exists row. repeat split; try assumption.
  rewrite Hprojection, lookup_insert_eq.
  rewrite bool_decide_eq_true_2 by exact Hpreset. reflexivity.
Qed.

(** ** attachments.create: a document attachment without a document *)

(** C10.  With preset [DocumentAttachment] and no [documentId] the
    authorization step is exactly the team-level [createAttachment] check:
    the policy engine is never asked about updating a document.  The handler
    stands or falls with that one permission.  With it, a size within the
    limit and a database that accepts the write, the request is served and
    its row is stored without a document.  Without it the handler fails with
    an [AuthorizationError], whatever the size and whatever the caller may do
    to documents, and stores nothing. *)
Theorem create_without_document_asks_the_team
    (ctx : APIContext AttachmentCreateReq) (w : World) :
  create_preset (input_body ctx) = DocumentAttachment →
  create_documentId (input_body ctx) = None →
  createAuthorization ctx w
  = authorize (auth_user ctx) ActCreateAttachment
      (OnTeam (user_team (auth_user ctx))) w
  ∧ (can (auth_user ctx) ActCreateAttachment (OnTeam (user_team (auth_user ctx))) = true →
     create_size (input_body ctx)
       ≤ presetToMaxUploadSize (create_preset (input_body ctx)) →
     dbWritable w = true →
     ∃ body w' row,
       attachmentsCreate ctx w = (Returned body, w')
       ∧ attachments w' = row :: attachments w
       ∧ documentId row = None)
  ∧ (can (auth_user ctx) ActCreateAttachment (OnTeam (user_team (auth_user ctx))) = false →
     ∃ w',
       attachmentsCreate ctx w = (Thrown AuthorizationError, w')
       ∧ attachments w' = attachments w
       ∧ notifications w' = notifications w).
Proof.
  intros Hpreset Hdoc.
  assert (createAuthorization ctx w
          = authorize (auth_user ctx) ActCreateAttachment
              (OnTeam (user_team (auth_user ctx))) w) as Hstep.
  { unfold createAuthorization. rewrite Hpreset, Hdoc. reflexivity. }
  split; [exact Hstep |]. split.
  - intros Hcan Hsize Hdb.
    assert ((createAuthorization ctx w).1 = Returned ()) as Hverdict.
    { rewrite Hstep, run_authorize, Hcan. reflexivity. }
    destruct (attachmentsCreate_succeeds ctx w Hverdict Hsize Hdb) as (body & w' & Hrun).
    destruct (attachmentsCreate_returned ctx w w' body Hrun)
      as (row & Hrows & _ & _ & Hrowdoc & _).
    exists body, w', row. repeat split; try assumption.
    rewrite Hrowdoc. exact Hdoc.
  - intros Hcan.
    assert ((createAuthorization ctx w).1 = Thrown AuthorizationError) as Hverdict.
    { rewrite Hstep, run_authorize, Hcan. reflexivity. }
    pose proof (createAuthorization_run ctx (record TxBegin w)) as Hauth.
    rewrite createAuthorization_record, Hverdict in Hauth.
    exists (record TxRollback (record TxBegin w)).
    split.
    { unfold attachmentsCreate. apply transaction_thrown_early.
      unfold attachmentsCreateHandler.
      rewrite (run_bind_thrown _ _ _ _ _ Hauth). reflexivity. }
    split; by destruct w.
Qed.

(** ** attachments.createFromUrl: the record and the job *)

(** The world in which the job of a valid, authorized request is scheduled:
    the placeholder row is in the table and its transaction is closed. *)
Lemma createFromUrl_runs
    (ctx : APIContext AttachmentCreateFromUrlReq) (w : World) :
  fromUrl_preset (input_body ctx) = DocumentAttachment →
  truthy (fromUrl_documentId (input_body ctx)) = true →
  can (auth_user ctx) ActUpdate
    (OnDocument (documents w !! default "" (fromUrl_documentId (input_body ctx)))) = true →
  dbWritable w = true →
  let row := pendingAttachment ctx w in
  let url_ := fromUrl_url (input_body ctx) in
  let task := runUploadAttachmentFromUrlTask (id row) url_ (row :: attachments w) in
  ∃ w',
    attachments w' = task.2
    ∧ notifications w' = notifications w ++ [AttachmentCreated (id row)]
    ∧ effects w'
      = effects w ++ [TxBegin; RowInserted row; TxCommit; JobScheduled (id row) url_]
    ∧ attachmentsCreateFromUrl ctx w
      = match task.1 !! "error" with
        | Some message => (Thrown (InvalidRequestError message), w')
        | None =>
            match List.find (hasId (id row)) task.2 with
            | Some reloaded => (Returned (presentAttachment reloaded), w')
            | None => (Thrown DatabaseError, w')
            end
        end.
Proof.
  intros Hpreset Hdoc Hcan Hdb row url_ task.
  unfold attachmentsCreateFromUrl.
  rewrite Hpreset, Hdoc, bool_decide_eq_true_2 by reflexivity. cbn [negb orb].
  rewrite run_bind, run_Document_findByPk, run_bind, run_authorize.
  rewrite <- Hpreset, Hcan.
  unfold uuidv4, transaction, Attachment_createWithCtx, now, dbWrite,
    UploadAttachmentFromUrlTask_schedule, job_finished, modifyWorld,
    Attachment_reload, getWorld, throw, mbind, Async_bind, mret, Async_ret.
  cbn. rewrite Hdb. cbn.
  fold url_. change (mkAttachment _ _ _ _ _ _ _ _ _ _ _) with row.
  change (uuid (uuidCounter w)) with (id row).
  fold task. destruct task as [response rows]. cbn.
  match goal with |- context [setAttachments rows ?x] => set (scheduled := x) end.
  change (attachments (setAttachments rows scheduled)) with rows.
  exists (setAttachments rows scheduled).
  split; [reflexivity |]. split; [reflexivity |].
  split; [cbn; rewrite <- !app_assoc; reflexivity |].
  destruct (response !! "error"); [reflexivity |].
  cbv beta. change (attachments (setAttachments rows scheduled)) with rows.
  destruct (List.find _ rows); reflexivity.
Qed.

(** C5.  A request to [attachments.createFromUrl] that passes validation and
    authorization, against a database that accepts the write, persists the
    placeholder row (size 0, content type [application/octet-stream]) in a
    transaction of its own, which is committed before the job is scheduled:
    the effects of the request are, in this order, begin, insert, commit,
    schedule, and the rows the job works on are the old table with the
    placeholder on top. *)
Theorem createFromUrl_persists_before_scheduling
    (ctx : APIContext AttachmentCreateFromUrlReq) (w : World) :
  fromUrl_preset (input_body ctx) = DocumentAttachment →
  truthy (fromUrl_documentId (input_body ctx)) = true →
  can (auth_user ctx) ActUpdate
    (OnDocument (documents w !! default "" (fromUrl_documentId (input_body ctx)))) = true →
  dbWritable w = true →
  ∃ row outcome w',
    attachmentsCreateFromUrl ctx w = (outcome, w')
    ∧ row = pendingAttachment ctx w
    ∧ size row = 0
    ∧ contentType row = "application/octet-stream"
    ∧ effects w'
      = effects w ++ [TxBegin; RowInserted row; TxCommit;
                      JobScheduled (id row) (fromUrl_url (input_body ctx))]
    ∧ attachments w'
      = (runUploadAttachmentFromUrlTask (id row) (fromUrl_url (input_body ctx))
           (row :: attachments w)).2.
Proof.
  intros Hpreset Hdoc Hcan Hdb.
  destruct (createFromUrl_runs ctx w Hpreset Hdoc Hcan Hdb)
    as (w' & Hrows & _ & Heffects & Hrun).
  exists (pendingAttachment ctx w), (attachmentsCreateFromUrl ctx w).1, w'.
  split; [rewrite Hrun; repeat case_match; reflexivity |].
  repeat split; assumption.
Qed.

(** C2.  When the job of such a request answers with an [error] field, the
    call fails with an [InvalidRequestError] carrying that very message, and
    the handler writes nothing more: the table is as the job left it, so a
    placeholder that the failing job did not touch is still there, with its
    size of 0. *)
Theorem createFromUrl_job_error_keeps_the_record
    (ctx : APIContext AttachmentCreateFromUrlReq) (w : World) (message : string) :
  fromUrl_preset (input_body ctx) = DocumentAttachment →
  truthy (fromUrl_documentId (input_body ctx)) = true →
  can (auth_user ctx) ActUpdate
    (OnDocument (documents w !! default "" (fromUrl_documentId (input_body ctx)))) = true →
  dbWritable w = true →
  let row := pendingAttachment ctx w in
  let task := runUploadAttachmentFromUrlTask (id row) (fromUrl_url (input_body ctx))
                (row :: attachments w) in
  task.1 !! "error" = Some message →
  row ∈ task.2 →
  ∃ w',
    attachmentsCreateFromUrl ctx w = (Thrown (InvalidRequestError message), w')
    ∧ attachments w' = task.2
    ∧ row ∈ attachments w'
    ∧ size row = 0.
Proof.
  intros Hpreset Hdoc Hcan Hdb row task Herror Hkept.
  destruct (createFromUrl_runs ctx w Hpreset Hdoc Hcan Hdb)
    as (w' & Hrows & _ & _ & Hrun).
  fold row in Hrows, Hrun. fold task in Hrows, Hrun.
  rewrite Herror in Hrun.
  exists w'. split; [exact Hrun |].
  split; [exact Hrows |].
  split; [rewrite Hrows; exact Hkept | reflexivity].
Qed.

(** ** attachments.redirect *)

(** The three ways a redirect for an existing attachment can go. *)
Lemma redirect_runs
    (ctx : APIContext AttachmentsRedirectReq) (w : World) (i : string) (a : Attachment) :
  requestedId ctx = Some i →
  List.find (hasId i) (attachments w) = Some a →
  let touched := withLastAccessedAt (clock w) a in
  handleAttachmentsRedirect ctx w
  = if isPrivate a && negb (bool_decide (teamId a = user_teamId (auth_user ctx)))
    then (Thrown AuthorizationError, w)
    else if dbWritable w
    then (Returned
            (if isPrivate a
             then ctx_redirect (signedUrl touched)
                    (ctx_set "Cache-Control"
                       ("max-age=" +:+ pretty defaultSignedUrlExpires +:+ ", immutable")
                       initialResponse)
             else ctx_redirect (canonicalUrl touched)
                    (ctx_set "Cache-Control" "max-age=604800, immutable"
                       initialResponse)),
          setAttachments (replaceRow touched (attachments w)) w)
    else (Thrown DatabaseError, w).
Proof.
  intros Hid Hfound touched.
  unfold handleAttachmentsRedirect, Attachment_findByPk, getWorld.
  rewrite Hid.
  unfold Attachment_update, now, dbWrite, throw, mbind, Async_bind, mret, Async_ret.
  cbv beta iota. rewrite Hfound. cbv beta iota.
  destruct (isPrivate a && negb (bool_decide (teamId a = user_teamId (auth_user ctx))));
    [reflexivity |].
  destruct (dbWritable w); [| reflexivity].
  change (isPrivate (withLastAccessedAt (clock w) a)) with (isPrivate a).
  destruct (isPrivate a); reflexivity.
Qed.

(** C6.  A redirect for a private attachment of another team fails with an
    [AuthorizationError] and changes nothing.  For a private attachment of the
    caller's own team, and a database that accepts the timestamp write, the
    answer is a 302 whose [Location] is the signed URL and whose
    [Cache-Control] is [max-age] of the configured signed-URL lifetime. *)
Theorem redirect_private_attachment
    (ctx : APIContext AttachmentsRedirectReq) (w : World) (i : string) (a : Attachment) :
  requestedId ctx = Some i →
  List.find (hasId i) (attachments w) = Some a →
  isPrivate a = true →
  (teamId a ≠ user_teamId (auth_user ctx) →
   handleAttachmentsRedirect ctx w = (Thrown AuthorizationError, w))
  ∧ (teamId a = user_teamId (auth_user ctx) →
     dbWritable w = true →
     ∃ r w',
       handleAttachmentsRedirect ctx w = (Returned r, w')
       ∧ status r = 302
       ∧ headers r !! "Location"
         = Some (signedUrl (withLastAccessedAt (clock w) a))
       ∧ headers r !! "Cache-Control"
         = Some ("max-age=" +:+ pretty defaultSignedUrlExpires +:+ ", immutable")).
Proof.
  intros Hid Hfound Hprivate.
  pose proof (redirect_runs ctx w i a Hid Hfound) as Hrun. cbv zeta in Hrun.
  rewrite Hprivate in Hrun. split.
  - intros Hteam. rewrite Hrun.
    rewrite bool_decide_eq_false_2 by exact Hteam. reflexivity.
  - intros Hteam Hdb. rewrite Hrun, Hdb.
    rewrite bool_decide_eq_true_2 by exact Hteam. cbn [negb andb].
    eexists _, _. split; [reflexivity |].
    split; [reflexivity |]. split.
    + cbn. apply lookup_insert_eq.
    + cbn. rewrite lookup_insert_ne by discriminate. apply lookup_insert_eq.
Qed.

(** C1, as the code has it.  For an attachment the caller may access, the
    handler awaits the [lastAccessedAt] write, made with [silent: true],
    before it answers.  When the database accepts the write the answer is the
    302 redirect, the row carries the time of the request and no change
    notification has been emitted; when the database rejects the write, the
    request fails with that rejection and no redirect is sent. *)
Theorem redirect_awaits_the_silent_update
    (ctx : APIContext AttachmentsRedirectReq) (w : World) (i : string) (a : Attachment) :
  requestedId ctx = Some i →
  List.find (hasId i) (attachments w) = Some a →
  isPrivate a && negb (bool_decide (teamId a = user_teamId (auth_user ctx))) = false →
  (dbWritable w = true →
   ∃ r w',
     handleAttachmentsRedirect ctx w = (Returned r, w')
     ∧ status r = 302
     ∧ notifications w' = notifications w
     ∧ attachments w'
       = replaceRow (withLastAccessedAt (clock w) a) (attachments w))
  ∧ (dbWritable w = false →
     handleAttachmentsRedirect ctx w = (Thrown DatabaseError, w)).
Proof.
  intros Hid Hfound Hmay.
  pose proof (redirect_runs ctx w i a Hid Hfound) as Hrun. cbv zeta in Hrun.
  rewrite Hmay in Hrun. split; intros Hdb; rewrite Hdb in Hrun.
  - eexists _, _. split; [exact Hrun |].
    split; [destruct (isPrivate a); reflexivity |].
    split; reflexivity.
  - exact Hrun.
Qed.

(** ** attachments.list *)

Lemma findAll_satisfies (where_ : WhereOptions) (o l : nat) (rows : list Attachment) :
  Forall (λ a, satisfies where_ a = true ∧ a ∈ rows)
    (take l (drop o (merge_sort newerFirst
                       (filter (λ a, satisfies where_ a = true) rows)))).
Proof.
  apply Forall_take, Forall_drop.
  rewrite merge_sort_Permutation.
  apply Forall_forall. intros a Ha.
  apply list_elem_of_filter in Ha. exact Ha.
Qed.

Lemma satisfies_own (team usr : string) (d : option string) (a : Attachment) :
  satisfies (mkWhere (Some team) (Some usr) d) a = true →
  teamId a = team ∧ userId a = usr.
Proof.
  unfold satisfies, columnIs. cbn.
  intros Hsat. apply andb_prop in Hsat as [Hsat _].
  apply andb_prop in Hsat as [Hteam Huser].
  split; eapply bool_decide_eq_true_1; eassumption.
Qed.

(** C7.  For a caller who is not an admin, [attachments.list] answers as if no
    [userId] filter had been sent, and every attachment it projects is a row
    of the table that belongs to the caller (and to the caller's team). *)
Theorem list_is_restricted_to_the_caller
    (user : User) (d f : option string) (q : option string) (p : Pagination) (w : World) :
  user_isAdmin user = false →
  attachmentsList (mkContext user (mkListReq d f) q p) w
  = attachmentsList (mkContext user (mkListReq d None) q p) w
  ∧ ∀ body w',
      attachmentsList (mkContext user (mkListReq d f) q p) w = (Returned body, w') →
      ∃ rows,
        list_data body = map presentAttachment rows
        ∧ Forall (λ a, userId a = user_id user
                       ∧ teamId a = user_teamId user
                       ∧ a ∈ attachments w) rows.
Proof.
  intros Hadmin. split.
  - unfold attachmentsList. cbn. rewrite Hadmin, andb_false_r. reflexivity.
  - intros body w'.
    unfold attachmentsList, Document_findByPk, authorize, Attachment_findAll,
      Attachment_count, getWorld, throw, mbind, Async_bind, mret, Async_ret.
    cbv beta iota delta [input_body auth_user list_userId list_documentId
                         state_pagination where_teamId where_userId
                         where_documentId].
    rewrite Hadmin, andb_false_r.
    destruct (truthy d); [destruct (can user ActRead _); [| discriminate] |].
    all: intros [= <- <-]; eexists; (split; [reflexivity |]).
    all: eapply Forall_impl; [apply findAll_satisfies |].
    all: intros a [Hsat Hin]; apply satisfies_own in Hsat as [? ?]; auto.
Qed.

End RouteProperties.

(** * Properties of the client upload helper *)

Section UploadProperties.
Variable post : Client.CreateArgs → Client.Settled (option Client.CreateData).
Variable send : string → list (string * Client.FormValue) → Client.XMLHttpRequest.

Lemma loadendSuccess_spec (xhr : Client.XMLHttpRequest) :
  Client.loadendSuccess xhr = true
  ↔ Client.readyState xhr = 4 ∧ 200 ≤ Client.status xhr < 400.
Proof.
  unfold Client.loadendSuccess.
  rewrite !andb_true_iff, !bool_decide_eq_true. lia.
Qed.

Lemma atLoadend_done (t : Client.Transport) :
  Client.readyState (Client.atLoadend t) = 4.
Proof. destruct t; reflexivity. Qed.

(** C9.  Once [/attachments.create] has answered and the transfer has ended
    (the request is DONE when "loadend" fires), the outcome of [uploadFile] is
    decided by the status the transfer ended with: it resolves with the
    attachment exactly when the status is in [200, 400), and rejects with the
    one error [Upload failed] exactly when it is not, which includes the
    status 0 of a network error.  There is no third outcome. *)
Theorem uploadFile_settles_on_the_final_status
    (file : Client.Upload) (options : Client.UploadOptions) (data : Client.CreateData) :
  post (Client.createArgs file options) = Client.Resolved (Some data) →
  let xhr := send (Client.uploadUrl data) (Client.formData file data) in
  Client.readyState xhr = 4 →
  (200 ≤ Client.status xhr < 400 ↔
   Client.uploadFile post send file options = Client.Resolved (Client.attachment data))
  ∧ (¬ 200 ≤ Client.status xhr < 400 ↔
     Client.uploadFile post send file options
     = Client.Rejected (Client.JsError "Upload failed"))
  ∧ (xhr = Client.atLoadend Client.NetworkError →
     Client.uploadFile post send file options
     = Client.Rejected (Client.JsError "Upload failed")).
Proof.
  intros Hpost xhr Hdone.
  unfold Client.uploadFile. rewrite Hpost. fold xhr.
  pose proof (loadendSuccess_spec xhr) as Hspec.
  destruct (Client.loadendSuccess xhr) eqn:Hsuccess; cbn.
  - assert (200 ≤ Client.status xhr < 400) as Hrange by (apply Hspec; reflexivity).
    split; [| split].
    + split; [reflexivity | intros _; exact Hrange].
    + split; [intros Hout; contradiction | discriminate].
    + intros Herror. rewrite Herror in Hrange. cbn in Hrange. lia.
  - assert (¬ 200 ≤ Client.status xhr < 400) as Hrange.
    { intros Hin. assert (false = true) by (apply Hspec; split; assumption).
      discriminate. }
    split; [| split].
    + split; [intros Hin; contradiction | discriminate].
    + split; [reflexivity | intros _; exact Hrange].
    + reflexivity.
Qed.

End UploadProperties.

(** * The theorems at work on the reference deployment *)

Section OnTheDeployment.
Import Deployment.

(** An avatar cannot be imported from a URL. *)
Lemma createFromUrl_requires_document_attachment_witness :
  (fromUrl_preset (input_body avatarFromUrl) ≠ DocumentAttachment
   ∨ fromUrl_documentId (input_body avatarFromUrl) = None)
  ∧ attachmentsCreateFromUrl avatarFromUrl (database true)
    = (Thrown (ValidationError onlyDocumentAttachments), database true).
Proof.
  assert (fromUrl_preset (input_body avatarFromUrl) ≠ DocumentAttachment
          ∨ fromUrl_documentId (input_body avatarFromUrl) = None) as Hbad
    by (left; discriminate).
  split; [exact Hbad |].
  exact (createFromUrl_requires_document_attachment avatarFromUrl (database true) Hbad).
Defined.

(** An admin who may update the handbook uploads twice the limit: the
    authorization step lets the request through and the size check refuses
    it, with the limit of the preset in the message. *)
Lemma create_rejects_oversized_witness :
  create_size (input_body oversizedByRoot)
    > presetToMaxUploadSize (create_preset (input_body oversizedByRoot))
  ∧ ∃ e w',
      attachmentsCreate oversizedByRoot (database true) = (Thrown e, w')
      ∧ attachments w' = attachments (database true)
      ∧ notifications w' = notifications (database true)
      ∧ e = ValidationError (tooLargeMessage (presetToMaxUploadSize DocumentAttachment)).
Proof.
  assert (create_size (input_body oversizedByRoot)
            > presetToMaxUploadSize (create_preset (input_body oversizedByRoot)))
    as Hsize by (vm_compute; reflexivity).
  split; [exact Hsize |].
  destruct (create_rejects_oversized oversizedByRoot (database true) Hsize)
    as (e & w' & Hrun & Hrows & Hnotes & _ & _ & Hwhich).
  exists e, w'. split_and!; [exact Hrun | exact Hrows | exact Hnotes |].
  rewrite Hwhich. vm_compute. reflexivity.
Defined.

(** C3 as the spec words it does not hold: an oversized upload into a
    document that the caller may not update is refused by the authorization
    step, with an [AuthorizationError], before the size is looked at. *)
Lemma oversized_create_by_unauthorized_caller :
  create_size (input_body oversizedByAlice)
    > presetToMaxUploadSize (create_preset (input_body oversizedByAlice))
  ∧ (attachmentsCreate oversizedByAlice (database true)).1 = Thrown AuthorizationError
  ∧ ¬ ∃ message,
        (attachmentsCreate oversizedByAlice (database true)).1
        = Thrown (ValidationError message).
Proof.
  split; [vm_compute; reflexivity |].
  assert ((attachmentsCreate oversizedByAlice (database true)).1
          = Thrown AuthorizationError) as Hrun by (vm_compute; reflexivity).
  split; [exact Hrun |].
  intros [message Hvalidation]. rewrite Hrun in Hvalidation. discriminate.
Qed.

(** The presenter of the deployment exposes the storage URL; the response
    carries the redirect URL instead. *)
Lemma create_document_attachment_url_is_redirectUrl_witness :
  create_preset (input_body looseAttachment) = DocumentAttachment
  ∧ ∃ body w' row,
      attachmentsCreate looseAttachment (database true) = (Returned body, w')
      ∧ attachments w' = row :: attachments (database true)
      ∧ id row = uuid (uuidCounter (database true))
      ∧ data_attachment body !! "url" = Some (JStr (redirectUrl row)).
Proof.
  split; [reflexivity |].
  destruct (attachmentsCreate looseAttachment (database true)) as [[body | e] w'] eqn:Hrun;
    [| vm_compute in Hrun; discriminate].
  destruct (create_document_attachment_url_is_redirectUrl
              looseAttachment (database true) w' body eq_refl Hrun)
    as (row & Hrows & Hid & Hurl).
  exists body, w', row. repeat split; assumption.
Defined.

(** Alice may not update any document, and still uploads a document
    attachment that names none; the stray admin, who may update the
    handbook, is refused for want of the team-level permission. *)
Lemma create_without_document_asks_the_team_witness :
  create_preset (input_body looseAttachment) = DocumentAttachment
  ∧ create_documentId (input_body looseAttachment) = None
  ∧ can alice ActUpdate (OnDocument (Some handbook)) = false
  ∧ (∃ body w' row,
      attachmentsCreate looseAttachment (database true) = (Returned body, w')
      ∧ attachments w' = row :: attachments (database true)
      ∧ documentId row = None)
  ∧ can stray ActUpdate (OnDocument (Some handbook)) = true
  ∧ ∃ w',
      attachmentsCreate looseAttachmentByStray (database true)
      = (Thrown AuthorizationError, w')
      ∧ attachments w' = attachments (database true)
      ∧ notifications w' = notifications (database true).
Proof.
  split; [reflexivity |]. split; [reflexivity |]. split; [reflexivity |].
  split.
  - destruct (create_without_document_asks_the_team looseAttachment (database true)
                eq_refl eq_refl) as (_ & Hgranted & _).
    apply Hgranted.
    + reflexivity.
    + vm_compute. discriminate.
    + reflexivity.
  - split; [reflexivity |].
    destruct (create_without_document_asks_the_team looseAttachmentByStray
                (database true) eq_refl eq_refl) as (_ & _ & Hdenied).
    apply Hdenied. reflexivity.
Defined.

(** Importing a reachable file. *)
Lemma createFromUrl_persists_before_scheduling_witness :
  ∃ row outcome w',
    attachmentsCreateFromUrl importLogo (database true) = (outcome, w')
    ∧ row = pendingAttachment importLogo (database true)
    ∧ size row = 0
    ∧ contentType row = "application/octet-stream"
    ∧ effects w'
      = effects (database true)
          ++ [TxBegin; RowInserted row; TxCommit;
              JobScheduled (id row) (fromUrl_url (input_body importLogo))]
    ∧ attachments w'
      = (runUploadAttachmentFromUrlTask (id row) (fromUrl_url (input_body importLogo))
           (row :: attachments (database true))).2.
Proof.
  apply (createFromUrl_persists_before_scheduling importLogo (database true));
    reflexivity.
Defined.

(** Importing a file that cannot be fetched. *)
Lemma createFromUrl_job_error_keeps_the_record_witness :
  ∃ w',
    attachmentsCreateFromUrl importMissing (database true)
    = (Thrown (InvalidRequestError "Unable to fetch the file"), w')
    ∧ attachments w'
      = pendingAttachment importMissing (database true) :: attachments (database true)
    ∧ pendingAttachment importMissing (database true) ∈ attachments w'
    ∧ size (pendingAttachment importMissing (database true)) = 0.
Proof.
  destruct (createFromUrl_job_error_keeps_the_record importMissing (database true)
              "Unable to fetch the file")
    as (w' & Hrun & Hrows & Hkept & Hzero);
    [reflexivity | reflexivity | reflexivity | reflexivity | reflexivity
    | apply list_elem_of_here |].
  exists w'. repeat split; assumption.
Defined.

(** The private report, asked for from another team and from its own. *)
Lemma redirect_private_attachment_witness :
  isPrivate report = true
  ∧ handleAttachmentsRedirect peekReport (database true)
    = (Thrown AuthorizationError, database true)
  ∧ ∃ r w',
      handleAttachmentsRedirect openReport (database true) = (Returned r, w')
      ∧ status r = 302
      ∧ headers r !! "Location"
        = Some (signedUrl (withLastAccessedAt (clock (database true)) report))
      ∧ headers r !! "Cache-Control" = Some "max-age=60, immutable".
Proof.
  split; [reflexivity |]. split.
  - destruct (redirect_private_attachment peekReport (database true) "report" report)
      as [Hother _]; [reflexivity | reflexivity | reflexivity |].
    apply Hother. discriminate.
  - destruct (redirect_private_attachment openReport (database true) "report" report)
      as [_ Hsame]; [reflexivity | reflexivity | reflexivity |].
    exact (Hsame eq_refl eq_refl).
Defined.

(** The public logo, with a database that accepts writes and with one that
    does not. *)
Lemma redirect_awaits_the_silent_update_witness :
  (∃ r w',
     handleAttachmentsRedirect openLogo (database true) = (Returned r, w')
     ∧ status r = 302
     ∧ notifications w' = notifications (database true)
     ∧ attachments w'
       = replaceRow (withLastAccessedAt (clock (database true)) logo)
           (attachments (database true)))
  ∧ handleAttachmentsRedirect openLogo (database false)
    = (Thrown DatabaseError, database false).
Proof.
  split.
  - destruct (redirect_awaits_the_silent_update openLogo (database true) "logo" logo)
      as [Haccepted _]; [reflexivity | reflexivity | reflexivity |].
    exact (Haccepted eq_refl).
  - destruct (redirect_awaits_the_silent_update openLogo (database false) "logo" logo)
      as [_ Hrejected]; [reflexivity | reflexivity | reflexivity |].
    exact (Hrejected eq_refl).
Defined.

(** C1 as the spec words it does not hold: the caller may access the public
    attachment, yet when the database rejects the timestamp write the
    request ends in that rejection and no redirect is produced. *)
Lemma redirect_fails_with_the_timestamp_write :
  requestedId openLogo = Some "logo"
  ∧ List.find (hasId "logo") (attachments (database false)) = Some logo
  ∧ isPrivate logo && negb (bool_decide (teamId logo = user_teamId (auth_user openLogo)))
    = false
  ∧ handleAttachmentsRedirect openLogo (database false)
    = (Thrown DatabaseError, database false)
  ∧ ¬ ∃ r w', handleAttachmentsRedirect openLogo (database false) = (Returned r, w').
Proof.
  assert (handleAttachmentsRedirect openLogo (database false)
          = (Thrown DatabaseError, database false)) as Hrun by reflexivity.
  repeat split; try reflexivity.
  intros (r & w' & Hredirect). rewrite Hrun in Hredirect. discriminate.
Qed.

(** Alice asks for the attachments of [root], who has one in her team, and
    gets her own. *)
Lemma list_is_restricted_to_the_caller_witness :
  user_isAdmin alice = false
  ∧ report ∈ attachments (database true)
  ∧ userId report = "root"
  ∧ attachmentsList (mkContext alice (mkListReq None (Some "root")) None firstPage)
      (database true)
    = attachmentsList (mkContext alice (mkListReq None None) None firstPage)
        (database true)
  ∧ ∃ body,
      attachmentsList (mkContext alice (mkListReq None (Some "root")) None firstPage)
        (database true)
      = (Returned body, database true)
      ∧ list_data body = [presentAttachment logo]
      ∧ ∃ rows,
          list_data body = map presentAttachment rows
          ∧ Forall (λ a, userId a = user_id alice
                         ∧ teamId a = user_teamId alice
                         ∧ a ∈ attachments (database true)) rows.
Proof.
  split; [reflexivity |]. split; [apply list_elem_of_here |]. split; [reflexivity |].
  destruct (list_is_restricted_to_the_caller alice None (Some "root") None firstPage
              (database true) eq_refl) as [Hsame Hown].
  split; [exact Hsame |].
  eexists. split; [reflexivity |]. split; [reflexivity |].
  apply (Hown _ (database true)). reflexivity.
Defined.

(** The same upload against a storage that answers 204 and one that
    answers 403. *)
Lemma uploadFile_settles_on_the_final_status_witness :
  Client.uploadFile granted (storageAnswers 204) notes asDocumentAttachment
  = Client.Resolved (Client.attachment credential)
  ∧ Client.uploadFile granted (storageAnswers 403) notes asDocumentAttachment
    = Client.Rejected (Client.JsError "Upload failed").
Proof.
  split.
  - destruct (uploadFile_settles_on_the_final_status granted (storageAnswers 204)
                notes asDocumentAttachment credential eq_refl eq_refl)
      as [Hresolves _].
    apply Hresolves. cbn. lia.
  - destruct (uploadFile_settles_on_the_final_status granted (storageAnswers 403)
                notes asDocumentAttachment credential eq_refl eq_refl)
      as (_ & Hrejects & _).
    apply Hrejects. cbn. lia.
Defined.

End OnTheDeployment.

(** * Further properties of the routes *)

Section ListProperties.
Context `{Collaborators}.

(** The [where] clause that [attachments.list] ends up with. *)
Lemma attachmentsList_runs (ctx : APIContext AttachmentsListReq) (w : World) :
  let user := auth_user ctx in
  let d := list_documentId (input_body ctx) in
  let f := list_userId (input_body ctx) in
  let where_ :=
    mkWhere (Some (user_teamId user))
      (if truthy f && user_isAdmin user then f else Some (user_id user))
      (if truthy d then d else None) in
  let matching := filter (λ a, satisfies where_ a = true) (attachments w) in
  let found := take (limit (state_pagination ctx))
                 (drop (offset (state_pagination ctx))
                    (merge_sort newerFirst matching)) in
  attachmentsList ctx w
  = if truthy d && negb (can user ActRead (OnDocument (documents w !! default "" d)))
    then (Thrown AuthorizationError, w)
    else (Returned (mkListResponse (state_pagination ctx) (length matching)
                      (map presentAttachment found) (presentPolicies user found)),
          w).
Proof.
  unfold attachmentsList, Document_findByPk, authorize, Attachment_findAll,
    Attachment_count, getWorld, throw, mbind, Async_bind, mret, Async_ret.
  cbv beta iota zeta delta [where_teamId where_userId where_documentId].
  destruct (truthy (list_documentId (input_body ctx))); cbn [andb negb].
  - destruct (can _ ActRead _); cbn [negb]; [| reflexivity].
    destruct (truthy (list_userId (input_body ctx)) && user_isAdmin (auth_user ctx));
      reflexivity.
  - destruct (truthy (list_userId (input_body ctx)) && user_isAdmin (auth_user ctx));
      reflexivity.
Qed.

Lemma satisfies_team (team : string) (u d : option string) (a : Attachment) :
  satisfies (mkWhere (Some team) u d) a = true → teamId a = team.
Proof.
  unfold satisfies, columnIs. cbn.
  intros Hsat. apply andb_prop in Hsat as [Hsat _].
  apply andb_prop in Hsat as [Hteam _].
  eapply bool_decide_eq_true_1; eassumption.
Qed.

Lemma satisfies_user (t d : option string) (usr : string) (a : Attachment) :
  satisfies (mkWhere t (Some usr) d) a = true → userId a = usr.
Proof.
  unfold satisfies, columnIs. cbn.
  intros Hsat. apply andb_prop in Hsat as [Hsat _].
  apply andb_prop in Hsat as [_ Huser].
  eapply bool_decide_eq_true_1; eassumption.
Qed.

Lemma satisfies_document (t u : option string) (d : string) (a : Attachment) :
  satisfies (mkWhere t u (Some d)) a = true → documentId a = Some d.
Proof.
  unfold satisfies. cbn.
  intros Hsat. apply andb_prop in Hsat as [_ Hdoc].
  eapply bool_decide_eq_true_1; eassumption.
Qed.

Lemma newerFirst_total : Total newerFirst.
Proof. intros a b. unfold newerFirst. lia. Qed.

Lemma newerFirst_transitive : Transitive newerFirst.
Proof. intros a b c. unfold newerFirst. lia. Qed.

(** X1.  The listing never crosses teams: whoever asks, admin or not, and whatever
    filters are sent, every attachment in the answer is a row of the table
    that belongs to the caller's team. *)
Theorem list_stays_within_the_team
    (ctx : APIContext AttachmentsListReq) (w w' : World) (body : ListResponse) :
  attachmentsList ctx w = (Returned body, w') →
  ∃ rows,
    list_data body = map presentAttachment rows
    ∧ Forall (λ a, teamId a = user_teamId (auth_user ctx) ∧ a ∈ attachments w) rows.
Proof.
  rewrite attachmentsList_runs. cbv zeta.
  destruct (truthy _ && negb _); [discriminate |].
  intros [= <- <-]. eexists. split; [reflexivity |].
  eapply Forall_impl; [apply findAll_satisfies |].
  intros a [Hsat Hin]. apply satisfies_team in Hsat. auto.
Qed.

(** X2.  An admin who sends a [userId] filter gets the attachments of that user,
    and of nobody else. *)
Theorem list_admin_filters_by_user
    (ctx : APIContext AttachmentsListReq) (w w' : World) (body : ListResponse)
    (wanted : string) :
  user_isAdmin (auth_user ctx) = true →
  list_userId (input_body ctx) = Some wanted →
  wanted ≠ "" →
  attachmentsList ctx w = (Returned body, w') →
  ∃ rows,
    list_data body = map presentAttachment rows
    ∧ Forall (λ a, userId a = wanted) rows.
Proof.
  intros Hadmin Hfilter Hwanted.
  rewrite attachmentsList_runs. cbv zeta.
  destruct (truthy (list_documentId _) && negb _); [discriminate |].
  rewrite Hfilter, Hadmin. cbn [truthy].
  rewrite (proj2 (String.eqb_neq wanted "") Hwanted). cbn [negb andb].
  intros [= <- <-]. eexists. split; [reflexivity |].
  eapply Forall_impl; [apply findAll_satisfies |].
  intros a [Hsat _]. apply satisfies_user in Hsat. exact Hsat.
Qed.

(** X3.  With a [documentId] the caller must be allowed to read that document
    (a document that does not exist is refused like one that may not be
    read), and then only attachments of that document are listed. *)
Theorem list_by_document_requires_read
    (ctx : APIContext AttachmentsListReq) (w : World) (d : string) :
  list_documentId (input_body ctx) = Some d →
  d ≠ "" →
  (can (auth_user ctx) ActRead (OnDocument (documents w !! d)) = false →
   attachmentsList ctx w = (Thrown AuthorizationError, w))
  ∧ (can (auth_user ctx) ActRead (OnDocument (documents w !! d)) = true →
     ∃ body rows,
       attachmentsList ctx w = (Returned body, w)
       ∧ list_data body = map presentAttachment rows
       ∧ Forall (λ a, documentId a = Some d) rows).
Proof.
  intros Hdoc Hd.
  rewrite attachmentsList_runs. cbv zeta.
  rewrite Hdoc. cbn [truthy]. change (default "" (Some d)) with d.
  rewrite (proj2 (String.eqb_neq d "") Hd). cbn [negb andb].
  split; intros Hcan; rewrite Hcan; cbn [negb]; [reflexivity |].
  eexists _, _. split; [reflexivity |]. split; [reflexivity |].
  eapply Forall_impl; [apply findAll_satisfies |].
  intros a [Hsat _]. apply satisfies_document in Hsat. exact Hsat.
Qed.

(** X4.  One page of the listing.  The matches are the rows of the caller's
    team, of the caller (or, for an admin who sends a [userId], of that
    user) and, when a [documentId] is sent, of that document.  [total] is
    the number of matches, whatever the page; the page is cut out of the
    matches put newest first: it skips [offset] of them and holds at most
    [limit]; the pagination of the request is echoed. *)
Theorem list_pages_newest_first
    (ctx : APIContext AttachmentsListReq) (w w' : World) (body : ListResponse) :
  attachmentsList ctx w = (Returned body, w') →
  let user := auth_user ctx in
  let d := list_documentId (input_body ctx) in
  let f := list_userId (input_body ctx) in
  let where_ :=
    mkWhere (Some (user_teamId user))
      (if truthy f && user_isAdmin user then f else Some (user_id user))
      (if truthy d then d else None) in
  let matching := filter (λ a, satisfies where_ a = true) (attachments w) in
  list_total body = length matching
  ∧ list_pagination body = state_pagination ctx
  ∧ (∃ sorted,
       sorted ≡ₚ matching
       ∧ StronglySorted newerFirst sorted
       ∧ list_data body
         = map presentAttachment
             (take (limit (state_pagination ctx))
                (drop (offset (state_pagination ctx)) sorted)))
  ∧ length (list_data body)
    = Nat.min (limit (state_pagination ctx))
        (list_total body - offset (state_pagination ctx))
  ∧ ∃ rows,
      list_data body = map presentAttachment rows
      ∧ StronglySorted newerFirst rows.
Proof.
  rewrite attachmentsList_runs. cbv zeta.
  destruct (truthy _ && negb _); [discriminate |].
  intros [= <- <-]. cbn [list_data list_total list_pagination].
  match goal with |- context [merge_sort newerFirst ?matching] =>
    assert (StronglySorted newerFirst (merge_sort newerFirst matching)) as Hsorted
      by (apply StronglySorted_merge_sort;
          [apply newerFirst_transitive | apply newerFirst_total]);
    pose proof (merge_sort_Permutation newerFirst matching) as Hperm
  end.
  split_and!.
  - reflexivity.
  - reflexivity.
  - eexists. split_and!; [exact Hperm | exact Hsorted | reflexivity].
  - rewrite length_map, length_take, length_drop.
    rewrite (Permutation_length Hperm). reflexivity.
  - eexists. split; [reflexivity |].
    match goal with |- StronglySorted _ (take ?l (drop ?o ?sorted)) =>
      rewrite <- (take_drop o sorted) in Hsorted;
      apply StronglySorted_app_1_r in Hsorted;
      rewrite <- (take_drop l (drop o sorted)) in Hsorted;
      apply StronglySorted_app_1_l in Hsorted; exact Hsorted
    end.
Qed.

(** Listing is a read: whatever it answers, it leaves the world alone. *)
Theorem list_changes_nothing (ctx : APIContext AttachmentsListReq) (w : World) :
  (attachmentsList ctx w).2 = w.
Proof.
  rewrite attachmentsList_runs. cbv zeta.
  destruct (truthy _ && negb _); reflexivity.
Qed.

End ListProperties.

Section CreateProperties.
Context `{Collaborators}.

(** The row that [attachments.create] hands to [Attachment.createWithCtx]
    when it runs in [w]. *)
Lemma attachmentsCreate_inversion
    (ctx : APIContext AttachmentCreateReq) (w w' : World) (body : CreateResponse) :
  attachmentsCreate ctx w = (Returned body, w') →
  let request := input_body ctx in
  let user := auth_user ctx in
  let preset := create_preset request in
  let modelId := uuid (uuidCounter w) in
  let row :=
    mkAttachment modelId
      (getKey (presetToAcl preset) modelId (create_name request) (user_id user))
      (presetToAcl preset) (create_size request) (presetToExpiry preset)
      (create_contentType request) (create_documentId request)
      (user_teamId user) (user_id user) (clock w) None in
  body
  = mkCreateResponse getUploadUrl
      (getPresignedPost (key row) (acl row) (presetToMaxUploadSize preset)
         (contentType row)
       ∪ <["Content-Type" := JStr (create_contentType request)]>
           (<["Cache-Control" := JStr "max-age=31557600"]> ∅))
      (<["url" := JStr (if bool_decide (preset = DocumentAttachment)
                        then redirectUrl row else url row)]>
         (presentAttachment row))
  ∧ attachments w' = row :: attachments w
  ∧ notifications w' = notifications w ++ [AttachmentCreated modelId]
  ∧ effects w' = effects w ++ [TxBegin; RowInserted row; TxCommit]
  ∧ documents w' = documents w
  ∧ clock w' = clock w
  ∧ dbWritable w' = true.
Proof.
  pose proof (createAuthorization_run ctx (record TxBegin w)) as Hauth.
  rewrite createAuthorization_record in Hauth.
  unfold attachmentsCreate, transaction, attachmentsCreateHandler.
  rewrite run_bind, Hauth.
  destruct (createAuthorization ctx w).1 as [[] | e]; [| discriminate].
  case_bool_decide as Hsize; [discriminate |].
  unfold uuidv4, Attachment_createWithCtx, now, dbWrite.
  rewrite !run_bind. cbn.
  destruct (dbWritable w) eqn:Hdb; cbn; [| discriminate].
  intros [= <- <-]. cbn.
  rewrite <- !app_assoc. repeat split. exact Hdb.
Qed.


(** X6.  The upload credential in the response is issued for the row that was
    stored: for its key, its access tier and its content type, capped at the
    limit of the preset.  Every field of the credential reaches the form
    unchanged; [Content-Type] and [Cache-Control] are filled in only where
    the credential is silent. *)
Theorem create_credential_is_for_the_stored_row
    (ctx : APIContext AttachmentCreateReq) (w w' : World) (body : CreateResponse) :
  attachmentsCreate ctx w = (Returned body, w') →
  ∃ row,
    head (attachments w') = Some row
    ∧ data_uploadUrl body = getUploadUrl
    ∧ ∀ field,
        data_form body !! field
        = match getPresignedPost (key row) (acl row)
                  (presetToMaxUploadSize (create_preset (input_body ctx)))
                  (contentType row) !! field with
          | Some value => Some value
          | None =>
              if bool_decide (field = "Content-Type")
              then Some (JStr (contentType row))
              else if bool_decide (field = "Cache-Control")
              then Some (JStr "max-age=31557600")
              else None
          end.
Proof.
  intros Hrun.
  destruct (attachmentsCreate_inversion ctx w w' body Hrun)
    as (-> & Hrows & _).
  eexists. split; [rewrite Hrows; reflexivity |].
  split; [reflexivity |].
  intros field. cbn [data_form contentType].
  rewrite lookup_union.
  destruct (getPresignedPost _ _ _ _ !! field) as [value |]; [by rewrite union_Some_l |].
  rewrite (left_id None _).
  repeat case_bool_decide; subst; simplify_map_eq; reflexivity.
Qed.

(** X7.  For every preset other than [DocumentAttachment] the [url] of the
    attachment in the response is the storage URL of the stored row. *)
Theorem create_other_presets_expose_the_storage_url
    (ctx : APIContext AttachmentCreateReq) (w w' : World) (body : CreateResponse) :
  create_preset (input_body ctx) ≠ DocumentAttachment →
  attachmentsCreate ctx w = (Returned body, w') →
  ∃ row,
    head (attachments w') = Some row
    ∧ data_attachment body !! "url" = Some (JStr (url row))
    ∧ ∀ field, field ≠ "url" →
        data_attachment body !! field = presentAttachment row !! field.
Proof.
  intros Hpreset Hrun.
  destruct (attachmentsCreate_inversion ctx w w' body Hrun)
    as (-> & Hrows & _).
  eexists. split; [rewrite Hrows; reflexivity |].
  cbn [data_attachment]. rewrite bool_decide_eq_false_2 by exact Hpreset.
  split; [apply lookup_insert_eq |].
  intros field Hfield. apply lookup_insert_ne. congruence.
Qed.

(** X8.  An avatar needs no permission.  The content type must be on the
    allow-list, or the request is refused and nothing is stored; with an
    allowed type and a size within the limit the upload is accepted whatever
    the policy engine would say about the caller. *)
Theorem create_avatar_needs_no_permission
    (ctx : APIContext AttachmentCreateReq) (w : World) :
  create_preset (input_body ctx) = Avatar →
  (create_contentType (input_body ctx) ∉ avatarContentTypes →
   ∃ w',
     attachmentsCreate ctx w = (Thrown (ValidationError assertInMessage), w')
     ∧ attachments w' = attachments w
     ∧ notifications w' = notifications w)
  ∧ (create_contentType (input_body ctx) ∈ avatarContentTypes →
     create_size (input_body ctx) ≤ presetToMaxUploadSize Avatar →
     dbWritable w = true →
     ∃ body w', attachmentsCreate ctx w = (Returned body, w')).
Proof.
  intros Hpreset.
  assert (createAuthorization ctx w
          = assertIn (create_contentType (input_body ctx)) avatarContentTypes w)
    as Hstep.
  { unfold createAuthorization. rewrite Hpreset. reflexivity. }
  split.
  - intros Hout. exists (record TxRollback (record TxBegin w)).
    split; [| by destruct w].
    unfold attachmentsCreate. apply transaction_thrown_early.
    unfold attachmentsCreateHandler.
    apply run_bind_thrown.
    rewrite createAuthorization_run, createAuthorization_record, Hstep.
    unfold assertIn. rewrite bool_decide_eq_false_2 by exact Hout. reflexivity.
  - intros Hin Hsize Hdb.
    apply attachmentsCreate_succeeds; [| rewrite Hpreset; exact Hsize | exact Hdb].
    rewrite Hstep. unfold assertIn. rewrite bool_decide_eq_true_2 by exact Hin.
    reflexivity.
Qed.

End CreateProperties.

Section CreateFromUrlProperties.
Context `{Collaborators}.

(** Run a valid request up to the verdict of the policy engine. *)
Ltac reach_authorization Hpreset Hdoc :=
  unfold attachmentsCreateFromUrl;
  rewrite Hpreset, Hdoc, bool_decide_eq_true_2 by reflexivity;
  cbn [negb orb];
  rewrite run_bind, run_Document_findByPk, run_bind, run_authorize;
  rewrite <- Hpreset.

(** X9.  A valid request whose caller may not update the document (the policy
    engine is asked about [null] when the document does not exist) is
    refused before anything happens: no row, no notification, no job. *)
Theorem createFromUrl_requires_update_permission
    (ctx : APIContext AttachmentCreateFromUrlReq) (w : World) :
  fromUrl_preset (input_body ctx) = DocumentAttachment →
  truthy (fromUrl_documentId (input_body ctx)) = true →
  can (auth_user ctx) ActUpdate
    (OnDocument (documents w !! default "" (fromUrl_documentId (input_body ctx)))) = false →
  attachmentsCreateFromUrl ctx w = (Thrown AuthorizationError, w).
Proof.
  intros Hpreset Hdoc Hcan.
  reach_authorization Hpreset Hdoc. rewrite Hcan. reflexivity.
Qed.

(** When the database rejects the insert, the transaction is rolled back and
    the request ends there. *)
Lemma createFromUrl_insert_rejected
    (ctx : APIContext AttachmentCreateFromUrlReq) (w : World) :
  fromUrl_preset (input_body ctx) = DocumentAttachment →
  truthy (fromUrl_documentId (input_body ctx)) = true →
  can (auth_user ctx) ActUpdate
    (OnDocument (documents w !! default "" (fromUrl_documentId (input_body ctx)))) = true →
  dbWritable w = false →
  ∃ w',
    attachmentsCreateFromUrl ctx w = (Thrown DatabaseError, w')
    ∧ attachments w' = attachments w
    ∧ notifications w' = notifications w
    ∧ effects w' = effects w ++ [TxBegin; TxRollback].
Proof.
  intros Hpreset Hdoc Hcan Hdb.
  reach_authorization Hpreset Hdoc. rewrite Hcan.
  unfold uuidv4, transaction, Attachment_createWithCtx, now, dbWrite,
    throw, mbind, Async_bind, mret, Async_ret.
  cbn. rewrite Hdb. cbn.
  eexists. split; [reflexivity |]. cbn.
  rewrite <- !app_assoc. repeat split.
Qed.

(** X10.  A job is never scheduled for a row that is not there.  Whatever the
    request and whatever its outcome, what it adds to the effects is
    nothing at all (refused before the insert, table untouched), or a
    transaction that was rolled back (table untouched), or an insert of the
    zero-byte row, its commit, and then the scheduling of the job for that
    very row. *)
Theorem createFromUrl_schedules_only_after_commit
    (ctx : APIContext AttachmentCreateFromUrlReq) (w : World) :
  let w' := (attachmentsCreateFromUrl ctx w).2 in
  (effects w' = effects w ∧ attachments w' = attachments w)
  ∨ (effects w' = effects w ++ [TxBegin; TxRollback]
     ∧ attachments w' = attachments w)
  ∨ ∃ row,
      effects w'
      = effects w ++ [TxBegin; RowInserted row; TxCommit;
                      JobScheduled (id row) (fromUrl_url (input_body ctx))]
      ∧ size row = 0
      ∧ contentType row = "application/octet-stream".
Proof.
  intros w'. subst w'.
  destruct (bool_decide (fromUrl_preset (input_body ctx) = DocumentAttachment))
    eqn:Hpreset;
    [apply bool_decide_eq_true_1 in Hpreset
    | apply bool_decide_eq_false_1 in Hpreset].
  2: { left. unfold attachmentsCreateFromUrl.
       rewrite bool_decide_eq_false_2 by exact Hpreset. split; reflexivity. }
  destruct (truthy (fromUrl_documentId (input_body ctx))) eqn:Hdoc.
  2: { left. rewrite createFromUrl_rejects_falsy_document by exact Hdoc.
       split; reflexivity. }
  destruct (can (auth_user ctx) ActUpdate
              (OnDocument (documents w
                             !! default "" (fromUrl_documentId (input_body ctx)))))
    eqn:Hcan.
  2: { left. reach_authorization Hpreset Hdoc. rewrite Hcan.
       split; reflexivity. }
  destruct (dbWritable w) eqn:Hdb.
  - right. right.
    destruct (createFromUrl_runs ctx w Hpreset Hdoc Hcan Hdb)
      as (w' & _ & _ & Heffects & Hrun).
    exists (pendingAttachment ctx w).
    split; [| split; reflexivity].
    rewrite Hrun. repeat case_match; exact Heffects.
  - right. left.
    destruct (createFromUrl_insert_rejected ctx w Hpreset Hdoc Hcan Hdb)
      as (w' & Hrun & Hrows & _ & Heffects).
    rewrite Hrun. split; assumption.
Qed.

(** X11.  When the job reports no error, the answer is the projection of the row as
    the job left it, not of the placeholder that was inserted. *)
Theorem createFromUrl_answers_with_the_reloaded_row
    (ctx : APIContext AttachmentCreateFromUrlReq) (w : World) (reloaded : Attachment) :
  fromUrl_preset (input_body ctx) = DocumentAttachment →
  truthy (fromUrl_documentId (input_body ctx)) = true →
  can (auth_user ctx) ActUpdate
    (OnDocument (documents w !! default "" (fromUrl_documentId (input_body ctx)))) = true →
  dbWritable w = true →
  let row := pendingAttachment ctx w in
  let task := runUploadAttachmentFromUrlTask (id row) (fromUrl_url (input_body ctx))
                (row :: attachments w) in
  task.1 !! "error" = None →
  List.find (hasId (id row)) task.2 = Some reloaded →
  ∃ w',
    attachmentsCreateFromUrl ctx w = (Returned (presentAttachment reloaded), w')
    ∧ attachments w' = task.2.
Proof.
  intros Hpreset Hdoc Hcan Hdb row task Hok Hreload.
  destruct (createFromUrl_runs ctx w Hpreset Hdoc Hcan Hdb)
    as (w' & Hrows & _ & _ & Hrun).
  fold row in Hrows, Hrun. fold task in Hrows, Hrun.
  rewrite Hok, Hreload in Hrun.
  exists w'. split; assumption.
Qed.

End CreateFromUrlProperties.

Section RedirectProperties.
Context `{Collaborators}.

Lemma find_hasId (i : string) (rows : list Attachment) (a : Attachment) :
  List.find (hasId i) rows = Some a → id a = i ∧ a ∈ rows.
Proof.
  intros Hfound. apply List.find_some in Hfound as [Hin Hid].
  split; [eapply bool_decide_eq_true_1; exact Hid | by apply list_elem_of_In].
Qed.

Lemma find_hasId_filter_other (i : string) (rows : list Attachment) :
  List.find (hasId i) (filter (λ row, id row ≠ i) rows) = None.
Proof.
  destruct (List.find _ _) as [a |] eqn:Hfound; [| reflexivity].
  apply find_hasId in Hfound as [Hid Hin].
  apply list_elem_of_filter in Hin as [Hother _]. contradiction.
Qed.

Lemma replaceRow_ids (row : Attachment) (rows : list Attachment) :
  map id (replaceRow row rows) = map id rows.
Proof.
  unfold replaceRow. induction rows as [| a rows IH]; [reflexivity |].
  cbn [map]. rewrite IH. f_equal.
  unfold hasId. case_bool_decide; congruence.
Qed.

Lemma replaceRow_lookup_other (row a : Attachment) (rows : list Attachment) (k : nat) :
  rows !! k = Some a → id a ≠ id row → replaceRow row rows !! k = Some a.
Proof.
  intros Hk Hother. unfold replaceRow.
  change (map ?f ?l) with (f <$> l). rewrite list_lookup_fmap, Hk. cbn.
  unfold hasId. rewrite bool_decide_eq_false_2 by exact Hother. reflexivity.
Qed.

Lemma redirect_not_found
    (ctx : APIContext AttachmentsRedirectReq) (w : World) (i : string) :
  requestedId ctx = Some i →
  List.find (hasId i) (attachments w) = None →
  handleAttachmentsRedirect ctx w = (Thrown NotFoundError, w).
Proof.
  intros Hid Hmissing.
  unfold handleAttachmentsRedirect, Attachment_findByPk, getWorld,
    throw, mbind, Async_bind, mret, Async_ret.
  cbv beta iota. rewrite Hid, Hmissing. reflexivity.
Qed.

Lemma redirect_without_id (ctx : APIContext AttachmentsRedirectReq) (w : World) :
  requestedId ctx = None →
  handleAttachmentsRedirect ctx w = (Thrown TypeError, w).
Proof.
  intros Hid.
  unfold handleAttachmentsRedirect, Attachment_findByPk, getWorld,
    throw, mbind, Async_bind, mret, Async_ret.
  cbv beta iota. rewrite Hid. reflexivity.
Qed.

(** X12.  A public attachment is served to every authenticated caller, of whatever
    team: the answer is a 302 to the canonical URL, cacheable for a week,
    and no signed URL is involved.  (The timestamp write must be accepted.) *)
Theorem redirect_public_attachment
    (ctx : APIContext AttachmentsRedirectReq) (w : World) (i : string) (a : Attachment) :
  requestedId ctx = Some i →
  List.find (hasId i) (attachments w) = Some a →
  isPrivate a = false →
  dbWritable w = true →
  ∃ r w',
    handleAttachmentsRedirect ctx w = (Returned r, w')
    ∧ status r = 302
    ∧ headers r !! "Location" = Some (canonicalUrl (withLastAccessedAt (clock w) a))
    ∧ headers r !! "Cache-Control" = Some "max-age=604800, immutable".
Proof.
  intros Hid Hfound Hpublic Hdb.
  pose proof (redirect_runs ctx w i a Hid Hfound) as Hrun. cbv zeta in Hrun.
  rewrite Hpublic, Hdb in Hrun. cbn [andb] in Hrun.
  eexists _, _. split; [exact Hrun |].
  split; [reflexivity |]. split.
  - cbn. apply lookup_insert_eq.
  - cbn. rewrite lookup_insert_ne by discriminate. apply lookup_insert_eq.
Qed.

(** X13.  A redirect for an id that is in no row of the table is a
    [NotFoundError] and changes nothing.  The id is the one of the body, or
    the one of the query string when the body has none. *)
Theorem redirect_unknown_attachment
    (ctx : APIContext AttachmentsRedirectReq) (w : World) (i : string) :
  redirect_id (input_body ctx) = Some i
  ∨ (redirect_id (input_body ctx) = None ∧ input_query_id ctx = Some i) →
  List.find (hasId i) (attachments w) = None →
  handleAttachmentsRedirect ctx w = (Thrown NotFoundError, w).
Proof.
  intros Hsent Hmissing.
  assert (requestedId ctx = Some i) as Hid.
  { unfold requestedId. destruct Hsent as [Hbody | [Hbody Hquery]].
    - rewrite Hbody. reflexivity.
    - rewrite Hbody. exact Hquery. }
  unfold handleAttachmentsRedirect, Attachment_findByPk, getWorld,
    throw, mbind, Async_bind, mret, Async_ret.
  cbv beta iota. rewrite Hid, Hmissing. reflexivity.
Qed.

(** X14.  A redirect writes one column of one row.  Whatever the request and its
    outcome, the table keeps its rows in place with their ids, every row
    with another id is untouched, and nothing but the table changes. *)
Theorem redirect_touches_only_the_requested_row
    (ctx : APIContext AttachmentsRedirectReq) (w : World) :
  ∃ rows,
    (handleAttachmentsRedirect ctx w).2 = setAttachments rows w
    ∧ map id rows = map id (attachments w)
    ∧ ∀ k a, attachments w !! k = Some a →
             Some (id a) ≠ requestedId ctx →
             rows !! k = Some a.
Proof.
  assert (setAttachments (attachments w) w = w) as Hsame by (by destruct w).
  destruct (requestedId ctx) as [i |] eqn:Hid.
  2: { exists (attachments w).
       rewrite redirect_without_id by exact Hid.
       rewrite Hsame. by repeat split. }
  destruct (List.find (hasId i) (attachments w)) as [a |] eqn:Hfound.
  2: { exists (attachments w).
       rewrite (redirect_not_found ctx w i Hid Hfound).
       rewrite Hsame. by repeat split. }
  pose proof (redirect_runs ctx w i a Hid Hfound) as Hrun. cbv zeta in Hrun.
  apply find_hasId in Hfound as [Ha _].
  destruct (isPrivate a && negb _).
  { exists (attachments w). rewrite Hrun, Hsame. by repeat split. }
  destruct (dbWritable w).
  2: { exists (attachments w). rewrite Hrun, Hsame. by repeat split. }
  exists (replaceRow (withLastAccessedAt (clock w) a) (attachments w)).
  rewrite Hrun. split; [reflexivity |]. split; [apply replaceRow_ids |].
  intros k b Hk Hother. apply replaceRow_lookup_other; [exact Hk |].
  cbn. rewrite Ha. congruence.
Qed.

(** X15.  What was just uploaded can be fetched.  After a successful
    [attachments.create], a redirect for the id of the new row, asked by
    anyone of the uploader's team, is answered with a 302. *)
Theorem create_then_redirect
    (ctx : APIContext AttachmentCreateReq) (w w1 : World) (body : CreateResponse)
    (later : APIContext AttachmentsRedirectReq) :
  attachmentsCreate ctx w = (Returned body, w1) →
  requestedId later = Some (uuid (uuidCounter w)) →
  user_teamId (auth_user later) = user_teamId (auth_user ctx) →
  ∃ r w2 row,
    handleAttachmentsRedirect later w1 = (Returned r, w2)
    ∧ status r = 302
    ∧ head (attachments w1) = Some row
    ∧ headers r !! "Location"
      = Some (if isPrivate row
              then signedUrl (withLastAccessedAt (clock w) row)
              else canonicalUrl (withLastAccessedAt (clock w) row)).
Proof.
  intros Hcreate Hid Hteam.
  destruct (attachmentsCreate_inversion ctx w w1 body Hcreate)
    as (_ & Hrows & _ & _ & _ & Hclock & Hdb).
  cbv zeta in Hrows.
  match type of Hrows with _ = ?new :: _ => set (row := new) in * end.
  assert (List.find (hasId (uuid (uuidCounter w))) (attachments w1) = Some row)
    as Hfound.
  { rewrite Hrows. cbn [List.find]. unfold hasId at 1.
    rewrite bool_decide_eq_true_2 by reflexivity. reflexivity. }
  pose proof (redirect_runs later w1 _ row Hid Hfound) as Hrun. cbv zeta in Hrun.
  rewrite Hdb, Hclock in Hrun.
  assert (teamId row = user_teamId (auth_user later)) as Hsame by (symmetry; exact Hteam).
  rewrite (bool_decide_eq_true_2 _ Hsame), andb_false_r in Hrun.
  eexists _, _, row. split; [exact Hrun |].
  split; [by destruct (isPrivate row) |].
  split; [rewrite Hrows; reflexivity |].
  destruct (isPrivate row); cbn; apply lookup_insert_eq.
Qed.

End RedirectProperties.

Section DeleteProperties.
Context `{Collaborators} `{AttachmentPolicy}.

(** The ways a delete can go.  An attachment without a document passes the
    first check. *)
Lemma attachmentsDelete_runs (ctx : APIContext AttachmentDeleteReq) (w : World) :
  let i := delete_id (input_body ctx) in
  let user := auth_user ctx in
  let rolledBack := record TxRollback (record TxBegin w) in
  attachmentsDelete ctx w
  = match List.find (hasId i) (attachments w) with
    | None => (Thrown NotFoundError, rolledBack)
    | Some a =>
        if negb (if truthy (documentId a)
                 then can user ActUpdate
                        (OnDocument (documents w !! default "" (documentId a)))
                 else true)
        then (Thrown AuthorizationError, rolledBack)
        else if negb (canDelete user a) then (Thrown AuthorizationError, rolledBack)
        else if dbWritable w
        then (Returned true,
              record TxCommit
                (setAttachments (filter (λ row, id row ≠ id a) (attachments w))
                   (record TxBegin w)))
        else (Thrown DatabaseError, rolledBack)
    end.
Proof.
  unfold attachmentsDelete, transaction, attachmentsDeleteHandler,
    Attachment_findByPk, Document_findByPk, authorize, authorizeDelete,
    Attachment_destroyWithCtx, dbWrite, getWorld, throw,
    mbind, Async_bind, mret, Async_ret.
  cbv beta iota zeta.
  destruct w as [rows docs notes effs counter time writable].
  cbn [record attachments documents notifications effects uuidCounter clock
       dbWritable setAttachments].
  destruct (List.find _ rows) as [a |]; [| reflexivity].
  destruct (truthy (documentId a)).
  - destruct (can _ ActUpdate _); cbn [negb]; [| reflexivity].
    destruct (canDelete _ a); cbn [negb]; [| reflexivity].
    destruct writable; reflexivity.
  - cbn [negb].
    destruct (canDelete _ a); cbn [negb]; [| reflexivity].
    destruct writable; reflexivity.
Qed.

(** X16.  Deleting needs two permissions.  When the attachment hangs on a document
    the caller must be allowed to update that document, and in every case
    the caller must be allowed to delete the attachment; short of either,
    the request is an [AuthorizationError] and the table is untouched. *)
Theorem delete_requires_both_permissions
    (ctx : APIContext AttachmentDeleteReq) (w : World) (a : Attachment) :
  List.find (hasId (delete_id (input_body ctx))) (attachments w) = Some a →
  (truthy (documentId a) = true
   ∧ can (auth_user ctx) ActUpdate
       (OnDocument (documents w !! default "" (documentId a))) = false)
  ∨ canDelete (auth_user ctx) a = false →
  ∃ w',
    attachmentsDelete ctx w = (Thrown AuthorizationError, w')
    ∧ attachments w' = attachments w.
Proof.
  intros Hfound Hdenied.
  pose proof (attachmentsDelete_runs ctx w) as Hrun. cbv zeta in Hrun.
  rewrite Hfound in Hrun.
  exists (record TxRollback (record TxBegin w)). split; [| by destruct w].
  rewrite Hrun.
  destruct Hdenied as [[Hdoc Hcan] | Hdelete].
  - rewrite Hdoc, Hcan. reflexivity.
  - rewrite Hdelete. by repeat case_match.
Qed.

(** X17.  A permitted delete answers [success: true] and removes the
    attachment from the table, and no other row: the rows with another id
    stay, in their order.  (What the model announces when a record is
    destroyed is the model's business and is not stated here.) *)
Theorem delete_removes_the_row
    (ctx : APIContext AttachmentDeleteReq) (w : World) (a : Attachment) :
  List.find (hasId (delete_id (input_body ctx))) (attachments w) = Some a →
  (truthy (documentId a) = true →
   can (auth_user ctx) ActUpdate
     (OnDocument (documents w !! default "" (documentId a))) = true) →
  canDelete (auth_user ctx) a = true →
  dbWritable w = true →
  ∃ w',
    attachmentsDelete ctx w = (Returned true, w')
    ∧ attachments w'
      = filter (λ row, id row ≠ delete_id (input_body ctx)) (attachments w).
Proof.
  intros Hfound Hdoc Hdelete Hdb.
  pose proof (attachmentsDelete_runs ctx w) as Hrun. cbv zeta in Hrun.
  rewrite Hfound, Hdelete, Hdb in Hrun.
  apply find_hasId in Hfound as [Hid _].
  exists (record TxCommit
            (setAttachments (filter (λ row, id row ≠ id a) (attachments w))
               (record TxBegin w))).
  split.
  - rewrite Hrun. destruct (truthy (documentId a)); [| reflexivity].
    rewrite Hdoc by reflexivity. reflexivity.
  - cbn. rewrite Hid. reflexivity.
Qed.

(** X18.  Deleting an attachment that is not there is a [NotFoundError]. *)
Theorem delete_unknown_attachment
    (ctx : APIContext AttachmentDeleteReq) (w : World) :
  List.find (hasId (delete_id (input_body ctx))) (attachments w) = None →
  ∃ w',
    attachmentsDelete ctx w = (Thrown NotFoundError, w')
    ∧ attachments w' = attachments w.
Proof.
  intros Hmissing.
  pose proof (attachmentsDelete_runs ctx w) as Hrun. cbv zeta in Hrun.
  rewrite Hmissing in Hrun.
  eexists. split; [exact Hrun | by destruct w].
Qed.

(** X19.  What was deleted is gone.  After a successful delete, a redirect for the
    same id and a second delete of it both end in [NotFoundError]. *)
Theorem delete_then_redirect_or_delete
    (ctx again : APIContext AttachmentDeleteReq) (w w1 : World) (done : bool)
    (later : APIContext AttachmentsRedirectReq) :
  attachmentsDelete ctx w = (Returned done, w1) →
  requestedId later = Some (delete_id (input_body ctx)) →
  delete_id (input_body again) = delete_id (input_body ctx) →
  handleAttachmentsRedirect later w1 = (Thrown NotFoundError, w1)
  ∧ (attachmentsDelete again w1).1 = Thrown NotFoundError.
Proof.
  intros Hdelete Hlater Hagain.
  assert (List.find (hasId (delete_id (input_body ctx))) (attachments w1) = None)
    as Hgone.
  { pose proof (attachmentsDelete_runs ctx w) as Hrun. cbv zeta in Hrun.
    rewrite Hdelete in Hrun.
    destruct (List.find _ (attachments w)) as [a |] eqn:Hfound; [| discriminate].
    apply find_hasId in Hfound as [Hid _].
    repeat case_match; try discriminate.
    all: injection Hrun as _ ->; cbn; rewrite Hid; apply find_hasId_filter_other. }
  split.
  - exact (redirect_not_found later w1 _ Hlater Hgone).
  - rewrite attachmentsDelete_runs. cbv zeta. rewrite Hagain, Hgone. reflexivity.
Qed.

End DeleteProperties.

(** * Properties of [extname] *)

Section ExtnameProperties.
Import Files.

(** ** One turn of the loop *)

Lemma scan_slash_continue (p : list Z) (i : nat) (s : Scan) :
  charCodeAt p i = CHAR_FORWARD_SLASH → matchedSlash s = true →
  scan p (S i) s = scan p i s.
Proof. intros Hc Hm. cbn [scan]. rewrite Hc, Hm. reflexivity. Qed.

Lemma scan_slash_break (p : list Z) (i : nat) (s : Scan) :
  charCodeAt p i = CHAR_FORWARD_SLASH → matchedSlash s = false →
  scan p (S i) s
  = mkScan (startDot s) (Z.of_nat i + 1) (end_ s) false (preDotState s).
Proof. intros Hc Hm. cbn [scan]. rewrite Hc, Hm. reflexivity. Qed.

Lemma scan_first_dot (p : list Z) (i : nat) (s : Scan) :
  charCodeAt p i = CHAR_DOT → startDot s = -1 →
  scan p (S i) s
  = scan p i (mkScan (Z.of_nat i) (startPart (markEnd i s)) (end_ (markEnd i s))
                (matchedSlash (markEnd i s)) (preDotState s)).
Proof.
  intros Hc Hd. cbn [scan]. rewrite Hc. cbn.
  unfold markEnd. destruct (end_ s =? -1); cbn; rewrite Hd; reflexivity.
Qed.

Lemma scan_later_dot (p : list Z) (i : nat) (s : Scan) :
  charCodeAt p i = CHAR_DOT → startDot s ≠ -1 → end_ s ≠ -1 →
  scan p (S i) s
  = scan p i (mkScan (startDot s) (startPart s) (end_ s) (matchedSlash s) 1).
Proof.
  intros Hc Hd He. cbn [scan]. rewrite Hc. cbn.
  rewrite (proj2 (Z.eqb_neq _ _) He), (proj2 (Z.eqb_neq _ _) Hd).
  destruct (preDotState s =? 1) eqn:Hp; cbn; [| reflexivity].
  apply Z.eqb_eq in Hp. destruct s; cbn in *; subst; reflexivity.
Qed.

Lemma scan_plain (p : list Z) (i : nat) (s : Scan) :
  plain (charCodeAt p i) →
  scan p (S i) s
  = scan p i (if startDot s =? -1 then markEnd i s
              else mkScan (startDot s) (startPart (markEnd i s)) (end_ (markEnd i s))
                     (matchedSlash (markEnd i s)) (-1)).
Proof.
  intros [Hdot Hslash]. cbn [scan].
  rewrite (proj2 (Z.eqb_neq _ _) Hslash), (proj2 (Z.eqb_neq _ _) Hdot).
  unfold markEnd. destruct (end_ s =? -1); cbn; destruct (startDot s =? -1); reflexivity.
Qed.

(** Every character is a slash, a dot or plain. *)
Lemma classify (c : Z) : c = CHAR_FORWARD_SLASH ∨ c = CHAR_DOT ∨ plain c.
Proof. unfold plain, CHAR_FORWARD_SLASH, CHAR_DOT. lia. Qed.

Lemma charCodeAt_app_l (p q : list Z) (i : nat) :
  (i < length p)%nat → charCodeAt (p ++ q) i = charCodeAt p i.
Proof. intros Hi. unfold charCodeAt. by rewrite lookup_app_l. Qed.

Lemma charCodeAt_app_r (p q : list Z) (i : nat) :
  charCodeAt (p ++ q) (length p + i) = charCodeAt q i.
Proof.
  unfold charCodeAt. rewrite lookup_app_r by lia.
  replace (length p + i - length p)%nat with i by lia. reflexivity.
Qed.

Lemma charCodeAt_Forall (P : Z → Prop) (p : list Z) (i : nat) :
  Forall P p → (i < length p)%nat → P (charCodeAt p i).
Proof.
  intros Hall Hi. unfold charCodeAt.
  destruct (lookup_lt_is_Some_2 p i Hi) as [c Hc]. rewrite Hc. cbn.
  eapply Forall_lookup_1; eassumption.
Qed.

(** The loop only looks at the characters below its starting index. *)
Lemma scan_app_l (p q : list Z) (n : nat) (s : Scan) :
  (n ≤ length p)%nat → scan (p ++ q) n s = scan p n s.
Proof.
  revert s. induction n as [| i IH]; intros s Hn; [reflexivity |].
  cbn [scan]. rewrite charCodeAt_app_l by lia.
  rewrite !IH by lia. reflexivity.
Qed.

(** ** Where the loop variables can point *)

Lemma scan_inRange (p : list Z) (len n : nat) (s : Scan) :
  (n ≤ len)%nat → inRange len s → inRange len (scan p n s).
Proof.
  revert s. induction n as [| i IH]; intros s Hn Hs; [exact Hs |].
  destruct Hs as [Hd He].
  destruct (classify (charCodeAt p i)) as [Hc | [Hc | Hc]].
  - destruct (matchedSlash s) eqn:Hm.
    + rewrite scan_slash_continue by assumption. apply IH; [lia | by split].
    + rewrite scan_slash_break by assumption. by split.
  - cbn [scan]. rewrite Hc. cbn.
    apply IH; [lia |].
    unfold inRange.
    destruct (end_ s =? -1) eqn:E; cbn;
      destruct (startDot s =? -1) eqn:D; cbn; rewrite ?D; cbn;
      try destruct (preDotState s =? 1); cbn;
      rewrite ?Z.eqb_eq, ?Z.eqb_neq in *; lia.
  - rewrite scan_plain by exact Hc. apply IH; [lia |].
    unfold inRange, markEnd.
    destruct (end_ s =? -1) eqn:E; cbn;
      destruct (startDot s =? -1) eqn:D; cbn;
      rewrite ?Z.eqb_eq, ?Z.eqb_neq in *; lia.
Qed.

Lemma initialScan_inRange (len : nat) : inRange len initialScan.
Proof. split; left; reflexivity. Qed.

(** ** Slices *)

Lemma slice_in_range (p : list Z) (a b : Z) :
  0 ≤ a → a ≤ b → b ≤ Z.of_nat (length p) →
  slice p a b = take (Z.to_nat (b - a)) (drop (Z.to_nat a) p).
Proof.
  intros Ha Hab Hb. unfold slice.
  rewrite !(proj2 (Z.ltb_ge _ _)) by lia.
  rewrite !Z.min_l by lia. reflexivity.
Qed.

Lemma slice_app_l (p q : list Z) (a b : Z) :
  0 ≤ a → a ≤ b → b ≤ Z.of_nat (length p) →
  slice (p ++ q) a b = slice p a b.
Proof.
  intros Ha Hab Hb.
  rewrite !slice_in_range by (rewrite ?length_app; lia).
  rewrite drop_app_le by lia.
  rewrite take_app_le by (rewrite length_drop; lia). reflexivity.
Qed.

Lemma slice_app_r (p q : list Z) (a b : Z) :
  0 ≤ a → a ≤ b → b ≤ Z.of_nat (length q) →
  slice (p ++ q) (a + Z.of_nat (length p)) (b + Z.of_nat (length p)) = slice q a b.
Proof.
  intros Ha Hab Hb.
  rewrite !slice_in_range by (rewrite ?length_app; lia).
  replace (Z.to_nat (a + Z.of_nat (length p))) with (length p + Z.to_nat a)%nat by lia.
  rewrite drop_app_add.
  replace (b + Z.of_nat (length p) - (a + Z.of_nat (length p))) with (b - a) by lia.
  reflexivity.
Qed.

Lemma slice_to_the_end (p x : list Z) :
  slice (p ++ x) (Z.of_nat (length p)) (Z.of_nat (length (p ++ x))) = x.
Proof.
  rewrite slice_in_range by (rewrite ?length_app; lia).
  rewrite Nat2Z.id, drop_app_length.
  rewrite length_app.
  replace (Z.to_nat (Z.of_nat (length p + length x) - Z.of_nat (length p)))
    with (length x) by lia.
  apply firstn_all.
Qed.

(** ** Paths without an extension *)

Lemma scan_no_dot (p : list Z) (n : nat) (s : Scan) :
  (∀ i, (i < n)%nat → charCodeAt p i ≠ CHAR_DOT) →
  startDot s = -1 → startDot (scan p n s) = -1.
Proof.
  revert s. induction n as [| i IH]; intros s Hp Hs; [exact Hs |].
  assert (∀ j, (j < i)%nat → charCodeAt p j ≠ CHAR_DOT) as Hp' by (intros; apply Hp; lia).
  destruct (classify (charCodeAt p i)) as [Hc | [Hc | Hc]].
  - destruct (matchedSlash s) eqn:Hm.
    + rewrite scan_slash_continue by assumption. by apply IH.
    + rewrite scan_slash_break by assumption. exact Hs.
  - exfalso. apply (Hp i); [lia | exact Hc].
  - rewrite scan_plain by exact Hc. apply IH; [exact Hp' |].
    rewrite Hs. cbn. unfold markEnd. by destruct (end_ s =? -1).
Qed.

(** X20.  A path without a dot has no extension. *)
Theorem extname_without_dot (path : list Z) :
  Forall (λ c, c ≠ CHAR_DOT) path →
  extname (StringArg path) = inr [].
Proof.
  intros Hpath. cbn [extname]. f_equal. unfold extension.
  rewrite scan_no_dot; [reflexivity | | reflexivity].
  intros i Hi. by apply (charCodeAt_Forall (λ c, c ≠ CHAR_DOT)).
Qed.

(** ** Trailing slashes *)

(** What [extension] cuts out lies within the range of the variables. *)
Lemma extension_app_l (p q : list Z) (s : Scan) :
  inRange (length p) s → extension (p ++ q) s = extension p s.
Proof.
  intros [Hd He]. unfold extension.
  destruct (startDot s =? -1) eqn:D; [reflexivity |].
  destruct (end_ s =? -1) eqn:E; [reflexivity |].
  apply Z.eqb_neq in D, E. cbn [orb].
  destruct (_ || _); [reflexivity |].
  destruct (Z.le_gt_cases (startDot s) (end_ s)) as [Hle | Hgt].
  - apply slice_app_l; lia.
  - unfold slice. rewrite length_app.
    rewrite !(proj2 (Z.ltb_ge _ _)) by lia.
    rewrite !Z.min_l by lia.
    replace (Z.to_nat (end_ s - startDot s)) with 0%nat by lia. reflexivity.
Qed.

(** X21.  Slashes at the end of a path do not count: the extension is that of the
    path without them. *)
Theorem extname_ignores_trailing_slashes (path : list Z) (k : nat) :
  extname (StringArg (path ++ replicate k CHAR_FORWARD_SLASH))
  = extname (StringArg path).
Proof.
  cbn [extname]. f_equal.
  assert (scan (path ++ replicate k CHAR_FORWARD_SLASH)
            (length path + k) initialScan
          = scan path (length path) initialScan) as Hscan.
  { induction k as [| k IH].
    - rewrite Nat.add_0_r. apply scan_app_l. lia.
    - replace (length path + S k)%nat with (S (length path + k)) by lia.
      rewrite scan_slash_continue; [| | reflexivity].
      + rewrite <- IH. rewrite replicate_S_end, app_assoc.
        apply scan_app_l. rewrite length_app, length_replicate. lia.
      + rewrite charCodeAt_app_r. unfold charCodeAt.
        rewrite lookup_replicate_2 by lia. reflexivity. }
  rewrite length_app, length_replicate, Hscan.
  apply extension_app_l, scan_inRange; [lia | apply initialScan_inRange].
Qed.

(** ** A name, a dot, an extension *)

Lemma markEnd_marked (i : nat) (s : Scan) : end_ s ≠ -1 → markEnd i s = s.
Proof. intros He. unfold markEnd. by rewrite (proj2 (Z.eqb_neq _ _) He). Qed.

Lemma markEnd_end (i : nat) (s : Scan) : end_ (markEnd i s) ≠ -1.
Proof.
  unfold markEnd. destruct (end_ s =? -1) eqn:E; cbn; [lia | by apply Z.eqb_neq].
Qed.

Lemma markEnd_startDot (i : nat) (s : Scan) : startDot (markEnd i s) = startDot s.
Proof. unfold markEnd. by destruct (end_ s =? -1). Qed.

Lemma markEnd_preDotState (i : nat) (s : Scan) :
  preDotState (markEnd i s) = preDotState s.
Proof. unfold markEnd. by destruct (end_ s =? -1). Qed.

Lemma markEnd_startPart (i : nat) (s : Scan) : startPart (markEnd i s) = startPart s.
Proof. unfold markEnd. by destruct (end_ s =? -1). Qed.

(** A run of plain characters above every dot only marks the end. *)
Lemma scan_plain_run (p : list Z) (m n : nat) (s : Scan) :
  (m ≤ n)%nat →
  (∀ j, (m ≤ j < n)%nat → plain (charCodeAt p j)) →
  startDot s = -1 →
  scan p n s = scan p m (if decide (m < n)%nat then markEnd (n - 1) s else s).
Proof.
  revert s. induction n as [| i IH]; intros s Hmn Hrun Hs.
  - replace m with 0%nat by lia. reflexivity.
  - destruct (decide (m = S i)) as [-> | Hm].
    + rewrite decide_False by lia. reflexivity.
    + rewrite scan_plain by (apply Hrun; lia).
      rewrite Hs, Z.eqb_refl.
      rewrite IH; [| lia | intros; apply Hrun; lia | by rewrite markEnd_startDot].
      rewrite (decide_True (P := (m < S i)%nat)) by lia.
      replace (S i - 1)%nat with i by lia.
      destruct (decide (m < i)%nat); [| reflexivity].
      rewrite markEnd_marked by apply markEnd_end. reflexivity.
Qed.

(** Once a plain character has been seen before the dot, the extension is
    settled: the rest of the path can only move [startPart], and flip
    [preDotState] between [-1] and [1]. *)
Lemma scan_settled (p : list Z) (n : nat) (s : Scan) :
  startDot s ≠ -1 → end_ s ≠ -1 → startPart s = 0 →
  Z.of_nat n + 1 ≤ startDot s →
  preDotState s = -1 ∨ (preDotState s = 1 ∧ Z.of_nat n + 2 ≤ startDot s) →
  startDot (scan p n s) = startDot s
  ∧ end_ (scan p n s) = end_ s
  ∧ (preDotState (scan p n s) = -1
     ∨ (preDotState (scan p n s) = 1 ∧ startPart (scan p n s) + 2 ≤ startDot s)).
Proof.
  revert s. induction n as [| i IH]; intros s Hd He Hpart Hn Hpre.
  - cbn [scan]. repeat split. destruct Hpre as [Hpre | [Hpre Hroom]]; [by left |].
    right. split; [exact Hpre | lia].
  - destruct (classify (charCodeAt p i)) as [Hc | [Hc | Hc]].
    + destruct (matchedSlash s) eqn:Hm.
      * rewrite scan_slash_continue by assumption.
        apply IH; try assumption; lia.
      * rewrite scan_slash_break by assumption. cbn.
        repeat split. destruct Hpre as [Hpre | [Hpre Hroom]]; [by left |].
        right. split; [exact Hpre | lia].
    + rewrite scan_later_dot by assumption.
      destruct (IH (mkScan (startDot s) (startPart s) (end_ s) (matchedSlash s) 1))
        as (Hd' & He' & Hp'); cbn; try assumption; try lia.
      cbn in Hd', He', Hp'. by repeat split.
    + rewrite scan_plain by exact Hc.
      rewrite (proj2 (Z.eqb_neq _ _) Hd), markEnd_marked by exact He.
      destruct (IH (mkScan (startDot s) (startPart s) (end_ s) (matchedSlash s) (-1)))
        as (Hd' & He' & Hp'); cbn; try assumption; try lia.
      cbn in Hd', He', Hp'. by repeat split.
Qed.

(** X22.  The familiar case.  When a name ends in a plain character, a dot and
    plain characters, these last with their dot are the extension, whatever
    comes before: directories, other dots, other extensions. *)
Theorem extname_of_name_dot_extension (base : list Z) (c : Z) (ext : list Z) :
  plain c → Forall plain ext →
  extname (StringArg (base ++ c :: CHAR_DOT :: ext)) = inr (CHAR_DOT :: ext).
Proof.
  intros Hc Hext. cbn [extname]. f_equal.
  set (path := base ++ c :: CHAR_DOT :: ext).
  assert (length path = (length base + 2 + length ext)%nat) as Hlen
    by (subst path; rewrite length_app; cbn; lia).
  assert (charCodeAt path (length base) = c) as Hname.
  { subst path. rewrite <- (Nat.add_0_r (length base)) at 1.
    by rewrite charCodeAt_app_r. }
  assert (charCodeAt path (length base + 1) = CHAR_DOT) as Hdot.
  { subst path. by rewrite charCodeAt_app_r. }
  assert (∀ j, (length base + 2 ≤ j < length path)%nat → plain (charCodeAt path j))
    as Htail.
  { intros j Hj. subst path.
    replace j with (length base + S (S (j - length base - 2)))%nat by lia.
    rewrite charCodeAt_app_r. cbn.
    apply (charCodeAt_Forall plain); [exact Hext | lia]. }
  rewrite (scan_plain_run path (length base + 2) (length path)) by (lia || done).
  set (s1 := if decide _ then _ else _).
  assert (startDot s1 = -1 ∧ preDotState s1 = 0 ∧ startPart s1 = 0
          ∧ end_ (markEnd (length base + 1) s1) = Z.of_nat (length path)) as Hs1.
  { subst s1. destruct (decide _) as [Hlong | Hshort].
    - rewrite (markEnd_marked (length base + 1)) by apply markEnd_end.
      repeat split. cbn. lia.
    - repeat split. cbn. lia. }
  destruct Hs1 as (Hd1 & Hp1 & Hpart1 & He1).
  replace (length base + 2)%nat with (S (length base + 1)) by lia.
  rewrite scan_first_dot by assumption.
  replace (length base + 1)%nat with (S (length base)) at 1 by lia.
  rewrite scan_plain by (rewrite Hname; exact Hc).
  cbn [startDot]. rewrite (proj2 (Z.eqb_neq _ (-1))) by lia.
  set (s3 := mkScan _ _ _ _ (-1)).
  assert (end_ s3 = Z.of_nat (length path)) as He3.
  { subst s3. cbn. rewrite markEnd_marked by (cbn; apply markEnd_end). exact He1. }
  assert (startDot s3 = Z.of_nat (length base + 1)) as Hd3 by reflexivity.
  destruct (scan_settled path (length base) s3) as (Hd & He & Hp).
  { rewrite Hd3. lia. }
  { rewrite He3. lia. }
  { subst s3. cbn. rewrite !markEnd_startPart. cbn. exact Hpart1. }
  { rewrite Hd3. lia. }
  { by left. }
  unfold extension. rewrite Hd, He, Hd3, He3.
  replace (Z.of_nat (length base + 1) =? -1) with false by (symmetry; apply Z.eqb_neq; lia).
  replace (Z.of_nat (length path) =? -1) with false by (symmetry; apply Z.eqb_neq; lia).
  assert ((preDotState (scan path (length base) s3) =? 0)
          || (preDotState (scan path (length base) s3) =? 1)
             && (Z.of_nat (length base + 1) =? Z.of_nat (length path) - 1)
             && (Z.of_nat (length base + 1) =? startPart (scan path (length base) s3) + 1)
          = false) as Hkeep.
  { destruct Hp as [Hp | [Hp Hroom]]; rewrite Hp; cbn; [reflexivity |].
    rewrite Hd3 in Hroom.
    rewrite (proj2 (Z.eqb_neq (Z.of_nat (length base + 1)) (startPart _ + 1))) by lia.
    apply andb_false_r. }
  cbn [orb]. rewrite Hkeep.
  subst path.
  replace (base ++ c :: CHAR_DOT :: ext) with ((base ++ [c]) ++ CHAR_DOT :: ext)
    by (by rewrite <- app_assoc).
  replace (length base + 1)%nat with (length (base ++ [c]))
    by (rewrite length_app; cbn; lia).
  apply slice_to_the_end.
Qed.

(** ** Dotfiles *)

(** In a last component that begins with its only dot, the loop ends with
    [preDotState] still 0. *)
Lemma scan_dotfile (dir name : list Z) :
  dir = [] ∨ last dir = Some CHAR_FORWARD_SLASH →
  Forall plain name →
  preDotState (scan (dir ++ CHAR_DOT :: name)
                 (length (dir ++ CHAR_DOT :: name)) initialScan) = 0.
Proof.
  intros Hdir Hname.
  set (path := dir ++ CHAR_DOT :: name).
  assert (length path = (length dir + 1 + length name)%nat) as Hlen
    by (subst path; rewrite length_app; cbn; lia).
  assert (charCodeAt path (length dir) = CHAR_DOT) as Hdot.
  { subst path. rewrite <- (Nat.add_0_r (length dir)) at 1.
    by rewrite charCodeAt_app_r. }
  assert (∀ j, (length dir + 1 ≤ j < length path)%nat → plain (charCodeAt path j))
    as Htail.
  { intros j Hj. subst path.
    replace j with (length dir + S (j - length dir - 1))%nat by lia.
    rewrite charCodeAt_app_r. cbn.
    apply (charCodeAt_Forall plain); [exact Hname | lia]. }
  rewrite (scan_plain_run path (length dir + 1) (length path)) by (lia || done).
  set (s1 := if decide _ then _ else _).
  assert (startDot s1 = -1 ∧ preDotState s1 = 0) as [Hd1 Hp1]
    by (subst s1; destruct (decide _); split; reflexivity).
  replace (length dir + 1)%nat with (S (length dir)) by lia.
  rewrite scan_first_dot by assumption.
  set (s2 := mkScan _ _ _ _ _).
  assert (preDotState s2 = 0) as Hp2 by exact Hp1.
  assert (matchedSlash s2 = false) as Hm2.
  { subst s2. cbn. unfold markEnd.
    destruct (end_ s1 =? -1) eqn:E; [reflexivity |].
    subst s1. destruct (decide _); cbn in *; [reflexivity | discriminate]. }
  destruct Hdir as [-> | Hlast]; [exact Hp2 |].
  apply last_Some in Hlast as [dir' ->].
  rewrite length_app. cbn [length]. rewrite Nat.add_1_r.
  rewrite scan_slash_break; [exact Hp2 | | exact Hm2].
  subst path. rewrite <- app_assoc, <- (Nat.add_0_r (length dir')).
  by rewrite charCodeAt_app_r.
Qed.

(** X23.  A dotfile has no extension: when the last component of a path begins
    with its only dot, [extname] is empty. *)
Theorem extname_of_dotfile (dir name : list Z) :
  dir = [] ∨ last dir = Some CHAR_FORWARD_SLASH →
  Forall plain name →
  extname (StringArg (dir ++ CHAR_DOT :: name)) = inr [].
Proof.
  intros Hdir Hname. cbn [extname]. f_equal. unfold extension.
  rewrite scan_dotfile by assumption.
  cbn [Z.eqb]. rewrite !orb_true_r. reflexivity.
Qed.

(** ** The directory does not matter *)

Lemma scan_turn (p : list Z) (i : nat) (s : Scan) :
  charCodeAt p i ≠ CHAR_FORWARD_SLASH →
  scan p (S i) s = scan p i (turn i (charCodeAt p i) s).
Proof.
  intros Hc. cbn [scan]. rewrite (proj2 (Z.eqb_neq _ _) Hc). reflexivity.
Qed.

Lemma turn_sentinels (i : nat) (c : Z) (s : Scan) :
  sentinels s → sentinels (turn i c s).
Proof.
  intros [Hd He]. unfold sentinels, turn, markEnd.
  destruct (end_ s =? -1) eqn:E; destruct (c =? CHAR_DOT); cbn;
    destruct (startDot s =? -1) eqn:D; cbn;
    try destruct (preDotState s =? 1); cbn;
    rewrite ?Z.eqb_eq, ?Z.eqb_neq in *; lia.
Qed.

Lemma turn_shift (k i : nat) (c : Z) (s : Scan) :
  sentinels s →
  turn (k + i) c (shift (Z.of_nat k) s) = shift (Z.of_nat k) (turn i c s).
Proof.
  intros [Hd He]. unfold turn, markEnd, shift.
  destruct (end_ s =? -1) eqn:E; destruct (c =? CHAR_DOT); cbn;
    destruct (startDot s =? -1) eqn:D; cbn;
    destruct (preDotState s =? 1) eqn:Q; cbn;
    rewrite ?Z.eqb_eq, ?Z.eqb_neq in E, D;
    repeat (match goal with
            | |- context [?a =? -1] =>
                first [ rewrite (proj2 (Z.eqb_neq a (-1))) by lia
                      | rewrite (proj2 (Z.eqb_eq a (-1))) by lia ]
            end; cbn; rewrite ?Q; cbn);
    f_equal; lia.
Qed.

Lemma turn_startPart (i : nat) (c : Z) (s : Scan) :
  startPart (turn i c s) = startPart s.
Proof.
  unfold turn, markEnd.
  destruct (end_ s =? -1); destruct (c =? CHAR_DOT); cbn;
    destruct (startDot s =? -1); cbn;
    try destruct (preDotState s =? 1); reflexivity.
Qed.

Lemma turn_matchedSlash (i : nat) (c : Z) (s : Scan) :
  end_ s = -1 ∨ matchedSlash s = false → matchedSlash (turn i c s) = false.
Proof.
  intros Hs. unfold turn, markEnd.
  destruct (end_ s =? -1) eqn:E; destruct (c =? CHAR_DOT); cbn;
    destruct (startDot s =? -1); cbn;
    try destruct (preDotState s =? 1); cbn;
    rewrite ?Z.eqb_eq, ?Z.eqb_neq in *; try reflexivity;
    destruct Hs; congruence.
Qed.

Lemma turn_end (i : nat) (c : Z) (s : Scan) : end_ (turn i c s) ≠ -1.
Proof.
  unfold turn.
  pose proof (markEnd_end i s).
  destruct (c =? CHAR_DOT); cbn;
    destruct (startDot (markEnd i s) =? -1); cbn;
    try destruct (preDotState (markEnd i s) =? 1); cbn; assumption.
Qed.

(** A component without slashes is scanned to its beginning; within a
    longer path the loop finds the same, further to the right. *)
Lemma scan_shift (pre f : list Z) (n : nat) (s : Scan) :
  Forall (λ c, c ≠ CHAR_FORWARD_SLASH) f → (n ≤ length f)%nat → sentinels s →
  scan (pre ++ f) (length pre + n) (shift (Z.of_nat (length pre)) s)
  = scan (pre ++ f) (length pre) (shift (Z.of_nat (length pre)) (scan f n s)).
Proof.
  intros Hf. revert s. induction n as [| i IH]; intros s Hn Hs.
  - rewrite Nat.add_0_r. reflexivity.
  - assert (charCodeAt f i ≠ CHAR_FORWARD_SLASH) as Hc
      by (apply (charCodeAt_Forall (λ c, c ≠ CHAR_FORWARD_SLASH)); [exact Hf | lia]).
    rewrite (scan_turn f) by exact Hc.
    replace (length pre + S i)%nat with (S (length pre + i)) by lia.
    rewrite scan_turn by (rewrite charCodeAt_app_r; exact Hc).
    rewrite charCodeAt_app_r, turn_shift by exact Hs.
    apply IH; [lia | by apply turn_sentinels].
Qed.

Lemma scan_component (f : list Z) (n : nat) (s : Scan) :
  Forall (λ c, c ≠ CHAR_FORWARD_SLASH) f → (n ≤ length f)%nat →
  startPart (scan f n s) = startPart s
  ∧ (end_ s = -1 ∨ matchedSlash s = false → (0 < n)%nat →
     matchedSlash (scan f n s) = false)
  ∧ (matchedSlash s = false → matchedSlash (scan f n s) = false).
Proof.
  intros Hf. revert s. induction n as [| i IH]; intros s Hn.
  - cbn [scan]. repeat split; [lia | done].
  - assert (charCodeAt f i ≠ CHAR_FORWARD_SLASH) as Hc
      by (apply (charCodeAt_Forall (λ c, c ≠ CHAR_FORWARD_SLASH)); [exact Hf | lia]).
    rewrite scan_turn by exact Hc.
    destruct (IH (turn i (charCodeAt f i) s)) as (Hpart & _ & Hkeep); [lia |].
    split; [by rewrite Hpart, turn_startPart |].
    split.
    + intros Hs _. apply Hkeep, turn_matchedSlash, Hs.
    + intros Hs. apply Hkeep, turn_matchedSlash. by right.
Qed.

Lemma extension_shift (pre f : list Z) (s : Scan) :
  inRange (length f) s →
  extension (pre ++ f)
    (mkScan (startDot (shift (Z.of_nat (length pre)) s))
            (startPart s + Z.of_nat (length pre))
            (end_ (shift (Z.of_nat (length pre)) s))
            (matchedSlash s) (preDotState s))
  = extension f s.
Proof.
  intros [Hd He]. unfold extension, shift. cbn.
  destruct (startDot s =? -1) eqn:D; [reflexivity |].
  destruct (end_ s =? -1) eqn:E; [by rewrite orb_true_r |].
  apply Z.eqb_neq in D, E.
  rewrite (proj2 (Z.eqb_neq (startDot s + _) (-1))) by lia.
  rewrite (proj2 (Z.eqb_neq (end_ s + _) (-1))) by lia.
  cbn [orb].
  replace (startDot s + Z.of_nat (length pre) =? end_ s + Z.of_nat (length pre) - 1)
    with (startDot s =? end_ s - 1)
    by (destruct (Z.eqb_spec (startDot s) (end_ s - 1));
        symmetry; [apply Z.eqb_eq | apply Z.eqb_neq]; lia).
  replace (startDot s + Z.of_nat (length pre)
           =? startPart s + Z.of_nat (length pre) + 1)
    with (startDot s =? startPart s + 1)
    by (destruct (Z.eqb_spec (startDot s) (startPart s + 1));
        symmetry; [apply Z.eqb_eq | apply Z.eqb_neq]; lia).
  destruct (_ || _); [reflexivity |].
  destruct (Z.le_gt_cases (startDot s) (end_ s)) as [Hle | Hgt].
  - apply slice_app_r; lia.
  - unfold slice. rewrite length_app.
    rewrite !(proj2 (Z.ltb_ge _ _)) by lia.
    rewrite !Z.min_l by lia.
    replace (Z.to_nat (end_ s + Z.of_nat (length pre)
                       - (startDot s + Z.of_nat (length pre)))) with 0%nat by lia.
    replace (Z.to_nat (end_ s - startDot s)) with 0%nat by lia. reflexivity.
Qed.

(** X24.  Only the last component of a path counts: a file inside a directory has
    the extension it has on its own. *)
Theorem extname_ignores_the_directory (dir file : list Z) :
  file ≠ [] →
  Forall (λ c, c ≠ CHAR_FORWARD_SLASH) file →
  extname (StringArg (dir ++ CHAR_FORWARD_SLASH :: file))
  = extname (StringArg file).
Proof.
  intros Hfile Hplain. cbn [extname]. f_equal.
  replace (dir ++ CHAR_FORWARD_SLASH :: file)
    with ((dir ++ [CHAR_FORWARD_SLASH]) ++ file) by (by rewrite <- app_assoc).
  set (pre := dir ++ [CHAR_FORWARD_SLASH]).
  assert (length pre = S (length dir)) as Hpre
    by (subst pre; rewrite length_app; cbn; lia).
  set (found := scan file (length file) initialScan).
  assert (0 < length file)%nat as Hlong by (destruct file; [done | cbn; lia]).
  destruct (scan_component file (length file) initialScan Hplain (Nat.le_refl _))
    as (Hpart & Hmatched & _).
  fold found in Hpart, Hmatched.
  rewrite length_app.
  change initialScan with (shift (Z.of_nat (length pre)) initialScan) at 1.
  rewrite scan_shift; [| exact Hplain | lia | split; left; reflexivity].
  fold found. rewrite Hpre at 1.
  rewrite scan_slash_break.
  - cbn [startDot end_ preDotState shift].
    rewrite <- (extension_shift pre file found)
      by (apply scan_inRange; [lia | apply initialScan_inRange]).
    rewrite Hpart, Hmatched by (left; reflexivity) || exact Hlong.
    cbn. rewrite Hpre. do 2 f_equal. lia.
  - subst pre. rewrite <- (Nat.add_0_r (length dir)).
    by rewrite charCodeAt_app_l, charCodeAt_app_r by (rewrite length_app; cbn; lia).
  - cbn. apply Hmatched; [by left | exact Hlong].
Qed.

(** ** Where the extension lies *)

Lemma scanning_found (p : list Z) (s : Scan) (n : nat) :
  scanning p n s → startDot s ≠ -1 → ∃ d e, found p s d e.
Proof.
  intros [(_ & Hd & _) | (e & He & Hn & _ & Hslashes & [(Hd & _) | (d & Hd & Hde & Hdot & Hplain)])];
    intros Hstart; try contradiction.
  exists d, e. unfold found. split_and!; try assumption; lia.
Qed.

Lemma scan_scanning (p : list Z) (n : nat) (s : Scan) :
  scanning p n s → (n ≤ length p)%nat →
  startDot (scan p n s) ≠ -1 → ∃ d e, found p (scan p n s) d e.
Proof.
  revert s. induction n as [| i IH]; intros s Hs Hn.
  - cbn [scan]. exact (scanning_found p s 0%nat Hs).
  - destruct (classify (charCodeAt p i)) as [Hc | [Hc | Hc]].
    + destruct (matchedSlash s) eqn:Hm.
      * rewrite scan_slash_continue by assumption.
        apply IH; [| lia].
        destruct Hs as [(He & Hd & Hslashes) | (e & _ & _ & Hfalse & _)];
          [| congruence].
        left. split_and!; try assumption.
        intros j Hj. destruct (decide (j = i)) as [-> | Hji]; [exact Hc |].
        apply Hslashes. lia.
      * rewrite scan_slash_break by assumption. cbn [startDot].
        intros Hstart.
        destruct (scanning_found p s (S i) Hs Hstart) as (d & e & Hfound).
        exists d, e. exact Hfound.
    + destruct Hs as [(He & Hd & Hslashes)
                     | (e & He & Hie & Hm & Hslashes
                        & [(Hd & Hplain) | (d & Hd & Hde & Hdot & Hplain)])].
      * rewrite scan_first_dot by assumption.
        apply IH; [| lia]. right. exists (S i).
        unfold markEnd. rewrite He. cbn.
        split_and!; try lia; try assumption.
        right. exists i. split_and!; try lia; try assumption.
      * rewrite scan_first_dot by assumption.
        apply IH; [| lia]. right. exists e.
        rewrite markEnd_marked by lia. cbn.
        split_and!; try lia; try assumption.
        right. exists i. split_and!; try lia; try assumption.
      * rewrite scan_later_dot by lia.
        apply IH; [| lia]. right. exists e. cbn.
        split_and!; try lia; try assumption.
        right. exists d. split_and!; try lia; try assumption.
    + rewrite scan_plain by exact Hc.
      destruct Hs as [(He & Hd & Hslashes)
                     | (e & He & Hie & Hm & Hslashes
                        & [(Hd & Hplain) | (d & Hd & Hde & Hdot & Hplain)])].
      * rewrite Hd. cbn [Z.eqb].
        apply IH; [| lia]. right. exists (S i).
        unfold markEnd. rewrite He. cbn.
        split_and!; try lia; try assumption.
        left. split; [exact Hd |].
        intros j Hj. replace j with i by lia. exact Hc.
      * rewrite Hd. cbn [Z.eqb]. rewrite markEnd_marked by lia.
        apply IH; [| lia]. right. exists e.
        split_and!; try lia; try assumption.
        left. split; [exact Hd |].
        intros j Hj. destruct (decide (j = i)) as [-> | Hji]; [exact Hc |].
        apply Hplain. lia.
      * rewrite (proj2 (Z.eqb_neq (startDot s) (-1))) by lia.
        rewrite markEnd_marked by lia.
        destruct (decide (d = i)) as [-> | Hdi].
        { destruct Hc as [Hc _]. contradiction. }
        apply IH; [| lia]. right. exists e. cbn.
        split_and!; try lia; try assumption.
        right. exists d. split_and!; try lia; try assumption.
Qed.

Lemma initialScan_scanning (p : list Z) : scanning p (length p) initialScan.
Proof. left. repeat split. intros j Hj. lia. Qed.

(** The piece that [slice] cuts out between a dot that was found and the end
    of its component. *)
Lemma slice_found (p : list Z) (s : Scan) (d e : nat) :
  found p s d e →
  ∃ name,
    slice p (startDot s) (end_ s) = CHAR_DOT :: name
    ∧ Forall plain name
    ∧ p = take d p ++ (CHAR_DOT :: name) ++ drop e p
    ∧ Forall (λ c, c = CHAR_FORWARD_SLASH) (drop e p).
Proof.
  intros (Hd & He & Hde & Hdot & Hplain & Hslashes).
  rewrite Hd, He, slice_in_range by lia.
  rewrite Nat2Z.id.
  replace (Z.to_nat (Z.of_nat e - Z.of_nat d)) with (e - d)%nat by lia.
  set (piece := take (e - d) (drop d p)).
  assert (length piece = (e - d)%nat) as Hlen
    by (subst piece; rewrite length_take, length_drop; lia).
  assert (∀ k, (k < e - d)%nat → piece !! k = p !! (d + k)%nat) as Hpiece.
  { intros k Hk. subst piece. rewrite lookup_take_lt by lia. apply lookup_drop. }
  destruct piece as [| c name] eqn:Hshape; [cbn in Hlen; lia |].
  assert (c = CHAR_DOT) as ->.
  { pose proof (Hpiece 0%nat ltac:(lia)) as H0. cbn in H0.
    rewrite Nat.add_0_r in H0. unfold charCodeAt in Hdot.
    rewrite <- H0 in Hdot. exact Hdot. }
  exists name. split; [reflexivity |]. split; [| split].
  - apply Forall_lookup. intros k y Hk.
    assert (S k < e - d)%nat as Hbound.
    { apply lookup_lt_Some in Hk. cbn in Hlen. lia. }
    pose proof (Hpiece (S k) Hbound) as Hat.
    change ((CHAR_DOT :: name) !! S k) with (name !! k) in Hat. rewrite Hk in Hat.
    specialize (Hplain (d + S k)%nat ltac:(lia)).
    unfold charCodeAt in Hplain. rewrite <- Hat in Hplain. exact Hplain.
  - rewrite <- Hshape. subst piece.
    rewrite <- (take_drop d p) at 1. f_equal.
    rewrite <- (take_drop (e - d) (drop d p)) at 1. f_equal.
    rewrite drop_drop. f_equal. lia.
  - apply Forall_lookup. intros k y Hk.
    rewrite lookup_drop in Hk.
    specialize (Hslashes (e + k)%nat).
    unfold charCodeAt in Hslashes. rewrite Hk in Hslashes. apply Hslashes.
    apply lookup_lt_Some in Hk. lia.
Qed.

Lemma extension_dotted (path ext : list Z) :
  extension path (scan path (length path) initialScan) = ext →
  ext ≠ [] →
  ∃ d e name,
    ext = CHAR_DOT :: name
    ∧ Forall plain name
    ∧ path = take d path ++ ext ++ drop e path
    ∧ Forall (λ c, c = CHAR_FORWARD_SLASH) (drop e path).
Proof.
  intros Hext Hsome. unfold extension in Hext.
  destruct (startDot _ =? -1) eqn:D; [cbn in Hext; congruence |].
  apply Z.eqb_neq in D.
  destruct (scan_scanning path (length path) initialScan
              (initialScan_scanning path) (Nat.le_refl _) D) as (d & e & Hfound).
  destruct (slice_found _ _ _ _ Hfound) as (name & Hslice & Hname & Hpath & Hslashes).
  destruct (_ || _); [congruence |].
  exists d, e, name. rewrite <- Hext, Hslice. by repeat split.
Qed.

(** X25.  An extension is a dot and plain characters, and it is where the path
    ends: after it the path has nothing but slashes. *)
Theorem extname_is_a_dotted_tail (path ext : list Z) :
  extname (StringArg path) = inr ext →
  ext ≠ [] →
  ∃ before name slashes,
    path = before ++ ext ++ slashes
    ∧ ext = CHAR_DOT :: name
    ∧ Forall plain name
    ∧ Forall (λ c, c = CHAR_FORWARD_SLASH) slashes.
Proof.
  intros Hext Hsome. cbn [extname] in Hext. injection Hext as Hext.
  destruct (extension_dotted path ext Hext Hsome)
    as (d & e & name & Hshape & Hname & Hpath & Hslashes).
  exists (take d path), name, (drop e path). by repeat split.
Qed.

(** X26.  An extension has no extension of its own. *)
Theorem extname_of_an_extension (path ext : list Z) :
  extname (StringArg path) = inr ext →
  extname (StringArg ext) = inr [].
Proof.
  intros Hext. cbn [extname] in Hext. injection Hext as Hext.
  destruct (decide (ext = [])) as [-> | Hsome]; [reflexivity |].
  destruct (extension_dotted path ext Hext Hsome)
    as (_ & _ & name & -> & Hname & _).
  cbn [extname]. f_equal. unfold extension.
  pose proof (scan_dotfile [] name (or_introl eq_refl) Hname) as Hzero.
  cbn [app] in Hzero. rewrite Hzero.
  cbn [Z.eqb]. rewrite !orb_true_r. reflexivity.
Qed.

End ExtnameProperties.

(** * Properties of [dataUrlToBlob] and more of [uploadFile] *)

Section DataUrlProperties.
Import Files.
Variable atob : list Z → option (list Z).

Lemma splitOnComma_piece (piece rest : list Z) :
  Forall (λ c, c ≠ 44) piece →
  splitOnComma (piece ++ 44 :: rest) = piece :: splitOnComma rest.
Proof.
  induction 1 as [| c piece Hc _ IH]; [reflexivity |].
  cbn [app splitOnComma]. rewrite (proj2 (Z.eqb_neq _ _) Hc), IH. reflexivity.
Qed.

Lemma splitOnComma_last (piece : list Z) :
  Forall (λ c, c ≠ 44) piece → splitOnComma piece = [piece].
Proof.
  induction 1 as [| c piece Hc _ IH]; [reflexivity |].
  cbn [splitOnComma]. rewrite (proj2 (Z.eqb_neq _ _) Hc), IH. reflexivity.
Qed.

(** X27.  Only what stands between the first comma and the next is decoded.  The
    header of the URL, with the media type it declares, is not looked at (the
    blob is [image/png] in any case), and neither is anything after a
    second comma. *)
Theorem dataUrlToBlob_decodes_the_second_piece (header payload rest : list Z) :
  Forall (λ c, c ≠ 44) header →
  Forall (λ c, c ≠ 44) payload →
  rest = [] ∨ head rest = Some 44 →
  dataUrlToBlob atob (header ++ 44 :: payload ++ rest)
  = match atob payload with
    | Some decoded => Some (mkBlob (map (λ code, code `mod` 256) decoded) "image/png")
    | None => None
    end.
Proof.
  intros Hheader Hpayload Hrest. unfold dataUrlToBlob.
  rewrite splitOnComma_piece by exact Hheader.
  assert (splitOnComma (payload ++ rest) !! 0%nat = Some payload) as Hsecond.
  { destruct Hrest as [-> | Hcomma].
    - rewrite app_nil_r, splitOnComma_last by exact Hpayload. reflexivity.
    - destruct rest as [| c rest]; [discriminate |].
      injection Hcomma as ->.
      rewrite splitOnComma_piece by exact Hpayload. reflexivity. }
  change ((header :: ?pieces) !! 1%nat) with (pieces !! 0%nat).
  rewrite Hsecond. change (default undefinedAsString (Some payload)) with payload.
  destruct (atob payload); reflexivity.
Qed.

(** X28.  Without a comma there is no second piece, and the decoder is handed the
    word [undefined]. *)
Theorem dataUrlToBlob_without_comma (dataURL : list Z) :
  Forall (λ c, c ≠ 44) dataURL →
  dataUrlToBlob atob dataURL
  = match atob (units "undefined") with
    | Some decoded => Some (mkBlob (map (λ code, code `mod` 256) decoded) "image/png")
    | None => None
    end.
Proof.
  intros Hplain. unfold dataUrlToBlob.
  rewrite splitOnComma_last by exact Hplain.
  change ([dataURL] !! 1%nat) with (@None (list Z)).
  change (default undefinedAsString None) with undefinedAsString.
  change (units "undefined") with undefinedAsString.
  destruct (atob undefinedAsString); reflexivity.
Qed.

End DataUrlProperties.

Section MoreUploadProperties.
Variable post : Client.CreateArgs → Client.Settled (option Client.CreateData).
Variable send : string → list (string * Client.FormValue) → Client.XMLHttpRequest.

(** X29.  [uploadFile] never reports success on its own account.  When it
    resolves, the credential request had resolved with data, the attachment
    handed back is the one of that answer, and the transfer to the upload
    URL of that answer, with the form built from it, ended DONE with a
    status in [200, 400).  When it rejects, the error is the one of the
    credential request, the broken invariant of a missing answer, or
    [Upload failed]. *)
Theorem uploadFile_resolves_only_after_the_transfer
    (file : Client.Upload) (options : Client.UploadOptions) :
  match Client.uploadFile post send file options with
  | Client.Resolved a =>
      ∃ data,
        post (Client.createArgs file options) = Client.Resolved (Some data)
        ∧ a = Client.attachment data
        ∧ Client.readyState (send (Client.uploadUrl data) (Client.formData file data)) = 4
        ∧ 200 ≤ Client.status (send (Client.uploadUrl data) (Client.formData file data))
          < 400
  | Client.Rejected e =>
      post (Client.createArgs file options) = Client.Rejected e
      ∨ (post (Client.createArgs file options) = Client.Resolved None
         ∧ e = Client.InvariantViolation "Response should be available")
      ∨ e = Client.JsError "Upload failed"
  end.
Proof.
  unfold Client.uploadFile.
  destruct (post (Client.createArgs file options)) as [[data |] | e].
  - destruct (Client.loadendSuccess _) eqn:Hsuccess; cbn.
    + apply loadendSuccess_spec in Hsuccess as [Hdone Hrange].
      exists data. split_and!; try done; lia.
    + by right; right.
  - right; left. by split.
  - by left.
Qed.

End MoreUploadProperties.

(** * The further theorems at work on the reference deployment *)

Section MoreOnTheDeployment.
Import Deployment Scenarios Files.

(** Evaluate the code units of the string literals in the goal. *)
Ltac spell :=
  repeat match goal with
         | |- context [units ?s] =>
             let l := eval vm_compute in (units s) in change (units s) with l
         end.

(** Check a property of character codes on every element of a list. *)
Ltac each_code :=
  repeat first
    [ apply Forall_nil_2
    | apply Forall_cons_2;
      [cbv beta; unfold plain, CHAR_DOT, CHAR_FORWARD_SLASH; lia |] ].

(** Root lists the attachments of Alice. *)
Lemma list_stays_within_the_team_witness :
  ∃ body w',
    attachmentsList (listAs root None (Some "alice") firstPage) (database true)
    = (Returned body, w')
    ∧ ∃ rows,
        list_data body = map presentAttachment rows
        ∧ Forall (λ a, teamId a = "acme" ∧ a ∈ attachments (database true)) rows.
Proof.
  destruct (attachmentsList (listAs root None (Some "alice") firstPage) (database true))
    as [[body | e] w'] eqn:Hrun; [| vm_compute in Hrun; discriminate].
  exists body, w'. split; [reflexivity |].
  exact (list_stays_within_the_team _ _ _ _ Hrun).
Defined.

Lemma list_admin_filters_by_user_witness :
  ∃ body w',
    attachmentsList (listAs root None (Some "alice") firstPage) (database true)
    = (Returned body, w')
    ∧ ∃ rows,
        list_data body = map presentAttachment rows
        ∧ Forall (λ a, userId a = "alice") rows.
Proof.
  destruct (attachmentsList (listAs root None (Some "alice") firstPage) (database true))
    as [[body | e] w'] eqn:Hrun; [| vm_compute in Hrun; discriminate].
  exists body, w'. split; [reflexivity |].
  apply (list_admin_filters_by_user
           (listAs root None (Some "alice") firstPage) (database true) w' body "alice");
    [reflexivity | reflexivity | discriminate | exact Hrun].
Defined.

(** Alice may read the handbook; Mallory, of another team, may not. *)
Lemma list_by_document_requires_read_witness :
  attachmentsList (listAs mallory (Some "handbook") None firstPage) (database true)
  = (Thrown AuthorizationError, database true)
  ∧ ∃ body rows,
      attachmentsList (listAs alice (Some "handbook") None firstPage) (database true)
      = (Returned body, database true)
      ∧ list_data body = map presentAttachment rows
      ∧ Forall (λ a, documentId a = Some "handbook") rows.
Proof.
  split.
  - destruct (list_by_document_requires_read
                (listAs mallory (Some "handbook") None firstPage) (database true)
                "handbook" eq_refl) as [Hdenied _]; [discriminate |].
    apply Hdenied. reflexivity.
  - destruct (list_by_document_requires_read
                (listAs alice (Some "handbook") None firstPage) (database true)
                "handbook" eq_refl) as [_ Hallowed]; [discriminate |].
    apply Hallowed. reflexivity.
Defined.

(** Alice has three uploads in the gallery, stored out of order; she asks
    for two of them after the newest. *)
Lemma list_pages_newest_first_witness :
  ∃ body w',
    attachmentsList (listAs alice None None (mkPagination 1%nat 2%nat)) gallery
    = (Returned body, w')
    ∧ list_total body = 3%nat
    ∧ list_pagination body = mkPagination 1%nat 2%nat
    ∧ (∃ sorted,
         sorted ≡ₚ [sketch; draft; logo]
         ∧ StronglySorted newerFirst sorted
         ∧ list_data body = map presentAttachment (take 2%nat (drop 1%nat sorted)))
    ∧ length (list_data body) = 2%nat
    ∧ list_data body = map presentAttachment [logo; sketch].
Proof.
  destruct (attachmentsList (listAs alice None None (mkPagination 1%nat 2%nat)) gallery)
    as [[body | e] w'] eqn:Hrun; [| vm_compute in Hrun; discriminate].
  exists body, w'. split; [reflexivity |].
  destruct (list_pages_newest_first _ _ _ _ Hrun)
    as (Htotal & Hpage & Hsorted & Hlength & _).
  split_and!.
  - exact Htotal.
  - exact Hpage.
  - exact Hsorted.
  - rewrite Hlength, Htotal. reflexivity.
  - vm_compute in Hrun. injection Hrun as <- _. reflexivity.
Defined.


Lemma create_credential_is_for_the_stored_row_witness :
  ∃ body w' row,
    attachmentsCreate looseAttachment (database true) = (Returned body, w')
    ∧ head (attachments w') = Some row
    ∧ data_uploadUrl body = "https://storage.example.com"
    ∧ data_form body !! "key" = Some (JStr (key row))
    ∧ data_form body !! "Content-Type" = Some (JStr (contentType row))
    ∧ data_form body !! "Cache-Control" = Some (JStr "max-age=31557600").
Proof.
  destruct (attachmentsCreate looseAttachment (database true))
    as [[body | e] w'] eqn:Hrun; [| vm_compute in Hrun; discriminate].
  destruct (create_credential_is_for_the_stored_row _ _ _ _ Hrun)
    as (row & Hhead & Hurl & Hform).
  exists body, w', row. split_and!; try done.
  all: rewrite Hform; cbn;
    first [ by rewrite lookup_singleton_eq
          | by rewrite lookup_singleton_ne by discriminate ].
Defined.

(** Mallory, of another team and without any permission, uploads an avatar. *)
Lemma create_other_presets_expose_the_storage_url_witness :
  ∃ body w' row,
    attachmentsCreate (avatarUpload "image/png") (database true) = (Returned body, w')
    ∧ head (attachments w') = Some row
    ∧ data_attachment body !! "url" = Some (JStr (url row))
    ∧ data_attachment body !! "size" = presentAttachment row !! "size".
Proof.
  destruct (attachmentsCreate (avatarUpload "image/png") (database true))
    as [[body | e] w'] eqn:Hrun; [| vm_compute in Hrun; discriminate].
  destruct (create_other_presets_expose_the_storage_url
              (avatarUpload "image/png") (database true) w' body)
    as (row & Hhead & Hurl & Hrest); [discriminate | exact Hrun |].
  exists body, w', row. split_and!; try done.
  apply Hrest. discriminate.
Defined.

Lemma create_avatar_needs_no_permission_witness :
  can mallory ActCreateAttachment (OnTeam (user_team mallory)) = true
  ∧ can mallory ActCreateAttachment (OnTeam acme) = false
  ∧ (∃ w',
       attachmentsCreate (avatarUpload "text/html") (database true)
       = (Thrown (ValidationError assertInMessage), w')
       ∧ attachments w' = attachments (database true)
       ∧ notifications w' = notifications (database true))
  ∧ ∃ body w',
      attachmentsCreate (avatarUpload "image/png") (database true) = (Returned body, w').
Proof.
  split; [reflexivity |]. split; [reflexivity |]. split.
  - destruct (create_avatar_needs_no_permission
                (avatarUpload "text/html") (database true) eq_refl) as [Hrefused _].
    apply Hrefused. cbn. rewrite !elem_of_cons, elem_of_nil.
    intros [Hpng | [Hjpeg | []]]; discriminate.
  - destruct (create_avatar_needs_no_permission
                (avatarUpload "image/png") (database true) eq_refl) as [_ Haccepted].
    apply Haccepted; [apply list_elem_of_here | cbn; lia | reflexivity].
Defined.

(** Alice is no admin and may not update the handbook. *)
Lemma createFromUrl_requires_update_permission_witness :
  attachmentsCreateFromUrl (importAs alice) (database true)
  = (Thrown AuthorizationError, database true).
Proof.
  apply (createFromUrl_requires_update_permission (importAs alice) (database true));
    reflexivity.
Defined.

Lemma createFromUrl_answers_with_the_reloaded_row_witness :
  size importedLogo = 2048
  ∧ ∃ w',
      attachmentsCreateFromUrl importLogo (database true)
      = (Returned (presentAttachment importedLogo), w')
      ∧ head (attachments w') = Some importedLogo.
Proof.
  split; [reflexivity |].
  destruct (createFromUrl_answers_with_the_reloaded_row
              importLogo (database true) importedLogo)
    as (w' & Hrun & Hrows); try reflexivity.
  exists w'. split; [exact Hrun |]. rewrite Hrows. reflexivity.
Defined.

(** Mallory, of another team, fetches the public logo. *)
Lemma redirect_public_attachment_witness :
  user_teamId mallory ≠ teamId logo
  ∧ ∃ r w',
      handleAttachmentsRedirect (redirectTo mallory "logo") (database true)
      = (Returned r, w')
      ∧ status r = 302
      ∧ headers r !! "Location"
        = Some (canonicalUrl (withLastAccessedAt (clock (database true)) logo))
      ∧ headers r !! "Cache-Control" = Some "max-age=604800, immutable".
Proof.
  split; [discriminate |].
  apply (redirect_public_attachment (redirectTo mallory "logo") (database true)
           "logo" logo); reflexivity.
Defined.

(** The unknown id in the body of a POST, and in the query string of a GET. *)
Lemma redirect_unknown_attachment_witness :
  handleAttachmentsRedirect (redirectTo alice "nowhere") (database true)
  = (Thrown NotFoundError, database true)
  ∧ handleAttachmentsRedirect
      (mkContext alice (mkRedirectReq None) (Some "nowhere") firstPage) (database true)
    = (Thrown NotFoundError, database true).
Proof.
  split.
  - apply (redirect_unknown_attachment (redirectTo alice "nowhere") (database true)
             "nowhere"); [by left | reflexivity].
  - apply (redirect_unknown_attachment
             (mkContext alice (mkRedirectReq None) (Some "nowhere") firstPage)
             (database true) "nowhere"); [by right | reflexivity].
Defined.

(** Alice uploads, Root of the same team fetches. *)
Lemma create_then_redirect_witness :
  ∃ body w1 r w2 row,
    attachmentsCreate looseAttachment (database true) = (Returned body, w1)
    ∧ handleAttachmentsRedirect (redirectTo root "id-0") w1 = (Returned r, w2)
    ∧ status r = 302
    ∧ head (attachments w1) = Some row
    ∧ headers r !! "Location"
      = Some (if isPrivate row
              then signedUrl (withLastAccessedAt (clock (database true)) row)
              else canonicalUrl (withLastAccessedAt (clock (database true)) row)).
Proof.
  destruct (attachmentsCreate looseAttachment (database true))
    as [[body | e] w1] eqn:Hrun; [| vm_compute in Hrun; discriminate].
  destruct (create_then_redirect looseAttachment (database true) w1 body
              (redirectTo root "id-0") Hrun eq_refl eq_refl)
    as (r & w2 & row & Hlater & Hstatus & Hhead & Hlocation).
  exists body, w1, r, w2, row. by split_and!.
Defined.

(** The report hangs on the handbook, which Alice may not update.  Mallory
    may update nothing and delete nothing. *)
Lemma delete_requires_both_permissions_witness :
  (∃ w',
     attachmentsDelete (deleteReport alice) (database true)
     = (Thrown AuthorizationError, w')
     ∧ attachments w' = attachments (database true))
  ∧ ∃ w',
      attachmentsDelete (deleteLogo mallory) (database true)
      = (Thrown AuthorizationError, w')
      ∧ attachments w' = attachments (database true).
Proof.
  split.
  - apply (delete_requires_both_permissions (deleteReport alice) (database true) report);
      [reflexivity |].
    left. split; reflexivity.
  - apply (delete_requires_both_permissions (deleteLogo mallory) (database true) logo);
      [reflexivity |].
    right. reflexivity.
Defined.

Lemma delete_removes_the_row_witness :
  ∃ w',
    attachmentsDelete (deleteReport root) (database true) = (Returned true, w')
    ∧ attachments w' = [logo].
Proof.
  destruct (delete_removes_the_row (deleteReport root) (database true) report)
    as (w' & Hrun & Hrows); try reflexivity.
  exists w'. split; [exact Hrun |]. rewrite Hrows. reflexivity.
Defined.

Lemma delete_unknown_attachment_witness :
  ∃ w',
    attachmentsDelete deleteUnknown (database true) = (Thrown NotFoundError, w')
    ∧ attachments w' = attachments (database true).
Proof.
  apply (delete_unknown_attachment deleteUnknown (database true)). reflexivity.
Defined.

Lemma delete_then_redirect_or_delete_witness :
  ∃ done w1,
    attachmentsDelete (deleteReport root) (database true) = (Returned done, w1)
    ∧ handleAttachmentsRedirect (redirectTo root "report") w1
      = (Thrown NotFoundError, w1)
    ∧ (attachmentsDelete (deleteReport root) w1).1 = Thrown NotFoundError.
Proof.
  destruct (attachmentsDelete (deleteReport root) (database true))
    as [[done | e] w1] eqn:Hrun; [| vm_compute in Hrun; discriminate].
  exists done, w1. split; [reflexivity |].
  exact (delete_then_redirect_or_delete (deleteReport root) (deleteReport root)
           (database true) w1 done (redirectTo root "report") Hrun eq_refl eq_refl).
Defined.

Lemma extname_without_dot_witness :
  extname (StringArg (units "build/Makefile")) = inr [].
Proof.
  apply extname_without_dot. spell. each_code.
Defined.

Lemma extname_of_name_dot_extension_witness :
  extname (StringArg (units "src/archive.tar.gz")) = inr (units ".gz").
Proof.
  change (units "src/archive.tar.gz")
    with (units "src/archive.ta" ++ 114 :: CHAR_DOT :: units "gz").
  change (units ".gz") with (CHAR_DOT :: units "gz").
  apply extname_of_name_dot_extension.
  - unfold plain, CHAR_DOT, CHAR_FORWARD_SLASH. lia.
  - spell. each_code.
Defined.

Lemma extname_of_dotfile_witness :
  extname (StringArg (units "home/alice/.bashrc")) = inr [].
Proof.
  change (units "home/alice/.bashrc")
    with (units "home/alice/" ++ CHAR_DOT :: units "bashrc").
  apply extname_of_dotfile.
  - right. reflexivity.
  - spell. each_code.
Defined.

Lemma extname_ignores_the_directory_witness :
  extname (StringArg (units "docs.v2/notes.txt"))
  = extname (StringArg (units "notes.txt")).
Proof.
  change (units "docs.v2/notes.txt")
    with (units "docs.v2" ++ CHAR_FORWARD_SLASH :: units "notes.txt").
  apply extname_ignores_the_directory.
  - discriminate.
  - spell. each_code.
Defined.

Lemma extname_is_a_dotted_tail_witness :
  ∃ before name slashes,
    units "a/b.txt//" = before ++ units ".txt" ++ slashes
    ∧ units ".txt" = CHAR_DOT :: name
    ∧ Forall plain name
    ∧ Forall (λ c, c = CHAR_FORWARD_SLASH) slashes.
Proof.
  apply (extname_is_a_dotted_tail (units "a/b.txt//") (units ".txt"));
    [reflexivity | discriminate].
Defined.

Lemma extname_of_an_extension_witness :
  extname (StringArg (units "a/b.txt//")) = inr (units ".txt")
  ∧ extname (StringArg (units ".txt")) = inr [].
Proof.
  assert (extname (StringArg (units "a/b.txt//")) = inr (units ".txt")) as Hext
    by reflexivity.
  split; [exact Hext |].
  exact (extname_of_an_extension _ _ Hext).
Defined.

(** A data URL that declares a JPEG still gives a PNG blob. *)
Lemma dataUrlToBlob_decodes_the_second_piece_witness :
  dataUrlToBlob decodeZeros (units "data:image/jpeg;base64,AAAA")
  = Some (mkBlob [0; 0; 0] "image/png").
Proof.
  change (units "data:image/jpeg;base64,AAAA")
    with (units "data:image/jpeg;base64" ++ 44 :: units "AAAA" ++ []).
  rewrite dataUrlToBlob_decodes_the_second_piece.
  - reflexivity.
  - spell. each_code.
  - spell. each_code.
  - by left.
Defined.

Lemma dataUrlToBlob_without_comma_witness :
  dataUrlToBlob decodeZeros (units "AAAA") = None.
Proof.
  rewrite dataUrlToBlob_without_comma.
  - reflexivity.
  - spell. each_code.
Defined.

End MoreOnTheDeployment.
